(** * deckbuilder.py: card resolution and Commander deck validation

    A shallow embedding of the decision logic of [src/deckbuilder.py]:
    [load_csv], the set-hint resolver, the row-to-card matcher, the
    identifier builder, the batches and the greedy assignment of
    [fetch_cards], [validate_deck], the lines of the text export and the
    exit status of [main].

    Python values are modelled as follows.
    - [str] is [string], read as the UTF-8 encoding of the text, a
      sequence of Unicode scalar values.  Equality, concatenation, the
      prefix and substring tests and the code-point order of two texts are
      those of their encodings, so they are computed on [string].  What depends on the character tables of the
      interpreter, namely [lower], [upper], [strip], [isalnum], [len],
      [int] and [repr], is a field of the class [Py.Text]: the program is
      a function of an implementation of that class and every theorem
      holds for all of them.  [ascii_text] implements the class on the
      ASCII range, where it computes what the interpreter computes; it
      serves to evaluate the program on sample data.
    - [int] is [Z]; [Optional[str]] is [option string]; [Dict[int, Card]]
      is [gmap nat Card]; [Dict[str, int]] and [Dict[str, str]] are [gmap]s
      with string keys.
    - A [raise] is the left injection of a sum, carrying the message of the
      exception.
    - A record of the card source is a JSON object in which every key may
      be absent; a key that is present holds a value of the JSON type the
      card source documents for it (text, list of texts, object of texts),
      never a null.
    - A line of the deck list is what [csv.DictReader] yields for it: the
      fields under the header names, and the fields beyond the header.
    - The set directory returned by [get_all_sets] is a list passed as an
      argument; the collection endpoint and the exact-name endpoint are
      functions passed as arguments, whose calls end with an answer or with
      an exception.  The on-disk cache and the waiting between retried
      calls are outside the model. *)

From Stdlib Require Import ZArith Ascii String List Bool Lia.
From Stdlib Require Import DecimalString DecimalZ.
From stdpp Require Import base option list sorting gmap strings.

Local Open Scope Z_scope.

#[local] Set Warnings "-clear-no-such-hyp".

(** * The program *)

(** ** The Python string operations the program uses *)

Module Py.

(** [s.startswith(p)] *)
Definition startswith (p s : string) : bool := String.prefix p s.

(** [sub in s] *)
Fixpoint contains (sub s : string) : bool :=
  String.prefix sub s ||
  match s with
  | EmptyString => false
  | String _ s' => contains sub s'
  end.

(** [str(n)] and [f"{n}"] for an [int]. *)
Definition str_of_int (n : Z) : string :=
  NilEmpty.string_of_int (Z.to_int n).

(** [f"{x}"] and [str(x)] for an [Optional[str]]. *)
Definition str_of_opt (o : option string) : string :=
  match o with
  | Some s => s
  | None => "None"
  end.

(** Truth value of an [Optional[str]]: [None] and [""] are false. *)
Definition truthy (o : option string) : bool :=
  match o with
  | Some (String _ _) => true
  | _ => false
  end.

(** [x or ""] for an [Optional[str]], and [d.get(k, "")] for a key that
    holds a text when it is present. *)
Definition or_empty (o : option string) : string :=
  match o with
  | Some s => s
  | None => ""
  end.

(** [x or None] for a [str]. *)
Definition or_none (s : string) : option string :=
  match s with
  | EmptyString => None
  | _ => Some s
  end.

(** [sep.join(l)] *)
Fixpoint join (sep : string) (l : list string) : string :=
  match l with
  | [] => ""
  | [x] => x
  | x :: l' => x +:+ sep +:+ join sep l'
  end.

(** [set(l)] keeps one copy of each element; [sorted] puts them in
    code-point order.  The sorted list of a set does not depend on the
    order in which the set is enumerated. *)
Definition sorted (l : list string) : list string :=
  merge_sort String.le l.

Definition sorted_set (l : list string) : list string :=
  sorted (remove_dups l).

(** The operations that consult the character tables of the interpreter,
    with the facts about them that the program relies on. *)
Class Text := {
  (** [s.lower()] *)
  lower : string → string;
  (** [s.upper()] *)
  upper : string → string;
  (** [s.strip()] *)
  strip : string → string;
  (** [s.isalnum()] *)
  isalnum : string → bool;
  (** [len(s)], the number of code points *)
  len : string → nat;
  (** [int(v)]; [None] stands for [ValueError] *)
  int : string → option Z;
  (** [repr(s)] *)
  repr : string → string;
  lower_empty : lower "" = "";
  lower_nonempty : ∀ s, lower s = "" → s = "";
  strip_empty : strip "" = "";
  len_empty : len "" = 0%nat;
  (** the blank is neither a letter nor a digit *)
  isalnum_no_space : ∀ s, isalnum s = true → contains " " s = false;
  strip_one : strip "1" = "1";
  int_one : int "1" = Some 1
}.

(** [f"{l}"] for a list of [str]. *)
Definition repr_list `{Text} (l : list string) : string :=
  "[" +:+ join ", " (repr <$> l) +:+ "]".

End Py.

(** ** Data model *)

(** [ALLOWED_DUP_EXCEPTIONS] *)
Definition ALLOWED_DUP_EXCEPTIONS : list string :=
  ["Relentless Rats"; "Shadowborn Apostle"].

(** [MAX_BATCH] *)
Definition MAX_BATCH : nat := 75.

Module CsvRow.
Record t := mk {
  name : string;
  set_input : option string;
  quantity : Z;
  card_number : option string;
  scryfall_id : option string;
  is_commander : bool
}.
End CsvRow.

(** A line of the deck list as [csv.DictReader] yields it: [fields] maps
    the header names to the fields of the line (a header name beyond the
    end of a short line has no field), and [rest] holds the fields of the
    line beyond the header, which the reader keeps as a list under the key
    [None] when there are any. *)
Module RawRow.
Record t := mk {
  fields : gmap string string;
  rest : list string
}.
End RawRow.

(** A card record as the card source returns it (a JSON object): every key
    may be absent, and a key that is present holds a value of the type the
    card source documents for it: a text for [id], [name], [set],
    [collector_number], [type_line] and [oracle_text], a list of texts for
    [color_identity] and [keywords], an object of texts for [legalities].
    An object in which [name] or [type_line] holds a null, on which the
    code raises, is not a record of the model. *)
Module CardObj.
Record t := mk {
  id : option string;
  name : option string;
  set : option string;
  collector_number : option string;
  type_line : option string;
  color_identity : option (list string);
  legalities : option (gmap string string);
  oracle_text : option string;
  keywords : option (list string)
}.
End CardObj.

Module Card.
Record t := mk {
  name : string;
  set : option string;
  collector_number : option string;
  type_line : string;
  color_identity : list string;
  legalities : gmap string string;
  oracle_text : string;
  keywords : list string;
  is_basic_land : bool
}.

(** [Card.from_scryfall]: [d.get(k, "")] for [type_line] and [name],
    [d.get(k, x) or x] for the keys after them, [d.get(k)] for [set] and
    [collector_number]. *)
Definition from_scryfall (d : CardObj.t) : t :=
  let type_line := Py.or_empty (CardObj.type_line d) in
  let is_basic := Py.contains "Basic Land" type_line in
  {| name := Py.or_empty (CardObj.name d);
     set := CardObj.set d;
     collector_number := CardObj.collector_number d;
     type_line := type_line;
     color_identity := default [] (CardObj.color_identity d);
     legalities := default ∅ (CardObj.legalities d);
     oracle_text := Py.or_empty (CardObj.oracle_text d);
     keywords := default [] (CardObj.keywords d);
     is_basic_land := is_basic |}.
End Card.

(** An entry of the set directory (a JSON object with keys [name], [code]). *)
Module SetObj.
Record t := mk {
  name : option string;
  code : option string
}.
End SetObj.

Module DeckValidation.
Record t := mk {
  issues : list string;
  warnings : list string;
  deck_size : Z;
  commander_names : list string;
  commander_color_id : list string
}.
End DeckValidation.

Section program.
Context `{T : Py.Text}.

(** ** Commander rules checks *)

(** [detect_commanders]: the loop over [enumerate(rows)], [idx] being the
    position of the head of [rows]. *)
Fixpoint detect_commanders_from (idx : nat) (rows : list CsvRow.t)
    (cards_by_index : gmap nat Card.t) : list Card.t :=
  match rows with
  | [] => []
  | r :: rows' =>
      match CsvRow.is_commander r, cards_by_index !! idx with
      | true, Some c => c :: detect_commanders_from (S idx) rows' cards_by_index
      | _, _ => detect_commanders_from (S idx) rows' cards_by_index
      end
  end.

Definition detect_commanders (rows : list CsvRow.t)
    (cards_by_index : gmap nat Card.t) : list Card.t :=
  detect_commanders_from 0 rows cards_by_index.

(** [_has_partner] *)
Definition _has_partner (c : Card.t) : bool :=
  if existsb (fun k => Py.startswith "partner" (Py.lower k)) (Card.keywords c)
  then true
  else
    let text := Py.lower (Card.oracle_text c) in
    Py.contains "partner" text || Py.contains "friends forever" text.

(** [_is_eligible_commander] *)
Definition _is_eligible_commander (c : Card.t) : bool :=
  let t := Card.type_line c in
  if Py.contains "Legendary Creature" t then true
  else if Py.contains "can be your commander" (Py.lower (Card.oracle_text c))
  then true
  else false.

(** ** The messages of [validate_deck] *)

Definition no_commander_msg : string :=
  "No commander specified. Add --commander 'Name' or two names for partners.".

Definition not_eligible_msg (n : string) : string :=
  "Commander '" +:+ n +:+
  "' may not be eligible (not a Legendary Creature or explicitly allowed).".

Definition partner_msg : string :=
  "Two commanders detected, but they don't both have Partner/Friends forever.".

Definition too_many_msg : string :=
  "More than two commanders marked. EDH supports one (or two with Partner).".

Definition size_msg (total_cards : Z) : string :=
  "Deck must contain exactly 100 total cards including commander(s); found "
  +:+ Py.str_of_int total_cards +:+ ".".

Definition unresolved_msg (r : CsvRow.t) : string :=
  "Card could not be resolved on Scryfall: '" +:+ CsvRow.name r +:+
  "' (set '" +:+ Py.str_of_opt (CsvRow.set_input r) +:+
  "' number '" +:+ Py.str_of_opt (CsvRow.card_number r) +:+ "')".

Definition banned_msg (n : string) : string :=
  "BANNED in Commander: " +:+ n.

Definition not_legal_msg (legality : option string) (n : string) : string :=
  "Not legal in Commander (status " +:+ Py.str_of_opt legality +:+ "): " +:+ n.

Definition singleton_msg (n : string) (count : Z) : string :=
  "Singleton violation: " +:+ n +:+ " appears " +:+ Py.str_of_int count +:+
  " times.".

Definition color_msg (n : string) (ci commander_colors : list string) : string :=
  "Color identity mismatch: " +:+ n +:+ " has " +:+ Py.repr_list ci +:+
  " not within commander identity " +:+ Py.repr_list commander_colors +:+ ".".

(** ** [validate_deck] *)

(** Lines 288-302: the commander block.  It appends to [issues] and binds
    [commander_colors]. *)
Definition commander_check (commanders : list Card.t) (issues : list string)
    : list string * list string :=
  match commanders with
  | [] => (issues ++ [no_commander_msg], [])
  | [c0] =>
      (if negb (_is_eligible_commander c0)
       then issues ++ [not_eligible_msg (Card.name c0)] else issues,
       Py.sorted_set (Card.color_identity c0))
  | [c0; c1] =>
      (if negb (_has_partner c0 && _has_partner c1)
       then issues ++ [partner_msg] else issues,
       Py.sorted_set (Card.color_identity c0 ++ Card.color_identity c1))
  | _ => (issues ++ [too_many_msg], [])
  end.

(** [sum(r.quantity for r in rows)] *)
Definition total_cards (rows : list CsvRow.t) : Z :=
  fold_left (fun acc r => acc + CsvRow.quantity r) rows 0.

(** Lines 306-307: the size check on [total_cards]. *)
Definition size_check (total : Z) (issues : list string) : list string :=
  if negb (total =? 100) then issues ++ [size_msg total] else issues.

(** Lines 310-312: the name counts, a dictionary filled row by row. *)
Definition name_counts (rows : list CsvRow.t) : gmap string Z :=
  fold_left
    (fun nc r => <[CsvRow.name r := default 0 (nc !! CsvRow.name r) + CsvRow.quantity r]> nc)
    rows ∅.

(** Lines 320-324: the legality block of one resolved card. *)
Definition legality_check (c : Card.t) (st : list string * list string)
    : list string * list string :=
  let '(issues, warnings) := st in
  let legality := Card.legalities c !! "commander" in
  if bool_decide (legality = Some "banned")
  then (issues ++ [banned_msg (Card.name c)], warnings)
  else if negb (bool_decide (legality = Some "legal") ||
                bool_decide (legality = Some "restricted"))
  then (issues, warnings ++ [not_legal_msg legality (Card.name c)])
  else (issues, warnings).

(** Lines 327-329: the singleton block of one resolved card. *)
Definition singleton_check (nc : gmap string Z) (c : Card.t)
    (issues : list string) : list string :=
  if negb (Card.is_basic_land c ||
           bool_decide (Card.name c ∈ ALLOWED_DUP_EXCEPTIONS))
  then
    if default 0 (nc !! Card.name c) >? 1
    then issues ++ [singleton_msg (Card.name c) (default 0 (nc !! Card.name c))]
    else issues
  else issues.

(** [ci.issubset(set(commander_colors))] *)
Definition issubset (ci commander_colors : list string) : bool :=
  forallb (fun x => bool_decide (x ∈ commander_colors)) ci.

(** Lines 332-337: the color identity block of one resolved card. *)
Definition color_check (commander_colors : list string) (c : Card.t)
    (issues : list string) : list string :=
  match commander_colors with
  | [] => issues
  | _ =>
      if negb (issubset (Card.color_identity c) commander_colors)
      then issues ++ [color_msg (Card.name c)
                        (Py.sorted_set (Card.color_identity c)) commander_colors]
      else issues
  end.

(** Lines 315-337: the body of the loop over [enumerate(rows)] (line 314). *)
Definition check_row (nc : gmap string Z) (commander_colors : list string)
    (cards_by_index : gmap nat Card.t) (idx : nat) (r : CsvRow.t)
    (st : list string * list string) : list string * list string :=
  match cards_by_index !! idx with
  | None => (st.1 ++ [unresolved_msg r], st.2)
  | Some c =>
      let '(issues, warnings) := legality_check c st in
      let issues := singleton_check nc c issues in
      let issues := color_check commander_colors c issues in
      (issues, warnings)
  end.

Fixpoint check_rows (nc : gmap string Z) (commander_colors : list string)
    (cards_by_index : gmap nat Card.t) (idx : nat) (rows : list CsvRow.t)
    (st : list string * list string) : list string * list string :=
  match rows with
  | [] => st
  | r :: rows' =>
      check_rows nc commander_colors cards_by_index (S idx) rows'
        (check_row nc commander_colors cards_by_index idx r st)
  end.

Definition validate_deck (rows : list CsvRow.t)
    (cards_by_index : gmap nat Card.t) : DeckValidation.t :=
  let commanders := detect_commanders rows cards_by_index in
  let '(issues, commander_colors) := commander_check commanders [] in
  let total := total_cards rows in
  let issues := size_check total issues in
  let nc := name_counts rows in
  let '(issues, warnings) :=
    check_rows nc commander_colors cards_by_index 0 rows (issues, []) in
  {| DeckValidation.issues := issues;
     DeckValidation.warnings := warnings;
     DeckValidation.deck_size := total;
     DeckValidation.commander_names := Card.name <$> commanders;
     DeckValidation.commander_color_id := commander_colors |}.

(** ** Set-hint resolution *)

(** Line 165: [2 < len(s) <= 5 and s.isalnum() and " " not in s] *)
Definition looks_like_code (s : string) : bool :=
  (2 <? Py.len s)%nat && (Py.len s <=? 5)%nat &&
  Py.isalnum s && negb (Py.contains " " s).

(** Lines 170-172: the first loop; [Some code] when it returns
    [st.get("code")], [None] when it falls through. *)
Fixpoint first_exact (s : string) (sets : list SetObj.t) : option (option string) :=
  match sets with
  | [] => None
  | st :: sets' =>
      if String.eqb (Py.lower (Py.or_empty (SetObj.name st))) (Py.lower s)
      then Some (SetObj.code st)
      else first_exact s sets'
  end.

(** Lines 174-177: the second loop. *)
Fixpoint first_contains (s : string) (sets : list SetObj.t) : option (option string) :=
  match sets with
  | [] => None
  | st :: sets' =>
      let name := Py.lower (Py.or_empty (SetObj.name st)) in
      if Py.contains (Py.lower s) name
      then Some (SetObj.code st)
      else first_contains s sets'
  end.

(** [resolve_set_code]; [sets] is what [get_all_sets(cache)] returns. *)
Definition resolve_set_code (set_input : option string) (sets : list SetObj.t)
    : option string :=
  if negb (Py.truthy set_input) then None
  else
    let s := Py.strip (Py.or_empty set_input) in
    if looks_like_code s then Some (Py.lower s)
    else
      match first_exact s sets with
      | Some code => code
      | None =>
          match first_contains s sets with
          | Some code => code
          | None => None
          end
      end.

(** ** Row-to-card matcher *)

(** [_row_matches_card] *)
Definition _row_matches_card (row : CsvRow.t) (card_obj : CardObj.t)
    (sets : list SetObj.t) : bool :=
  if Py.truthy (CsvRow.scryfall_id row) &&
     bool_decide (CardObj.id card_obj = CsvRow.scryfall_id row)
  then true
  else
    let set_code := resolve_set_code (CsvRow.set_input row) sets in
    if Py.truthy set_code && Py.truthy (CsvRow.card_number row) &&
       (bool_decide (CardObj.set card_obj = set_code) &&
        String.eqb (Py.str_of_opt (CardObj.collector_number card_obj))
                   (Py.str_of_opt (CsvRow.card_number row)))
    then true
    else
      if String.eqb (Py.lower (Py.or_empty (CardObj.name card_obj)))
                    (Py.lower (CsvRow.name row))
      then
        if Py.truthy set_code
        then bool_decide (CardObj.set card_obj = set_code)
        else true
      else false.

(** ** Identifier builder *)

(** A lookup key of the collection endpoint: the dictionaries [{"id"}],
    [{"set", "collector_number"}], [{"name", "set"}] and [{"name"}]. *)
Inductive Identifier : Type :=
  | ById (id : string)
  | BySetNumber (set collector_number : string)
  | ByNameSet (name set : string)
  | ByName (name : string).

(** Lines 203-212: the body of the loop of [build_identifiers]. *)
Definition build_identifier (r : CsvRow.t) (sets : list SetObj.t) : Identifier :=
  if Py.truthy (CsvRow.scryfall_id r) then ById (Py.or_empty (CsvRow.scryfall_id r))
  else
    let set_code := resolve_set_code (CsvRow.set_input r) sets in
    if Py.truthy set_code && Py.truthy (CsvRow.card_number r)
    then BySetNumber (Py.or_empty set_code) (Py.or_empty (CsvRow.card_number r))
    else if Py.truthy set_code
    then ByNameSet (CsvRow.name r) (Py.or_empty set_code)
    else ByName (CsvRow.name r).

Fixpoint build_identifiers_loop (rows : list CsvRow.t) (sets : list SetObj.t)
    (idents : list Identifier) : list Identifier :=
  match rows with
  | [] => idents
  | r :: rows' =>
      build_identifiers_loop rows' sets (idents ++ [build_identifier r sets])
  end.

(** [build_identifiers] *)
Definition build_identifiers (rows : list CsvRow.t) (sets : list SetObj.t)
    : list Identifier :=
  build_identifiers_loop rows sets [].

(** ** Greedy assignment of the returned records *)

(** Line 234: [list(range(i, min(i + len(batch), len(rows))))] *)
Definition unresolved_indices (i batch_len rows_len : nat) : list nat :=
  seq i (Nat.min (i + batch_len) rows_len - i).

(** Lines 236-241: the scan of the row positions for one record.  The
    answer is the position the record is assigned to, if any.  The
    positions are below [len(rows)], so that [rows[idx]] is defined. *)
Fixpoint first_fit (rows : list CsvRow.t) (sets : list SetObj.t)
    (result : gmap nat Card.t) (card_obj : CardObj.t) (indices : list nat)
    : option nat :=
  match indices with
  | [] => None
  | idx :: indices' =>
      match result !! idx with
      | Some _ => first_fit rows sets result card_obj indices'
      | None =>
          match rows !! idx with
          | Some row =>
              if _row_matches_card row card_obj sets then Some idx
              else first_fit rows sets result card_obj indices'
          | None => None
          end
      end
  end.

(** One turn of the loop over [data["data"]]. *)
Definition assign (rows : list CsvRow.t) (sets : list SetObj.t)
    (indices : list nat) (result : gmap nat Card.t) (card_obj : CardObj.t)
    : gmap nat Card.t :=
  match first_fit rows sets result card_obj indices with
  | Some idx => <[idx := Card.from_scryfall card_obj]> result
  | None => result
  end.

(** Lines 235-241: the loop over the returned records. *)
Definition greedy_match (rows : list CsvRow.t) (sets : list SetObj.t)
    (indices : list nat) (data : list CardObj.t) (result : gmap nat Card.t)
    : gmap nat Card.t :=
  fold_left (assign rows sets indices) data result.

(** What lines 227-229 get for a batch of identifiers: the call raises
    (an error status of the answer at line 145, a failed request, an answer
    that is no JSON), or the answer has no ["data"], or it holds records. *)
Inductive CollectionAnswer : Type :=
  | Raised (e : string)
  | NoData
  | Data (data : list CardObj.t).

(** The collection endpoint, as the resolver sees it. *)
Definition CollectionLookup : Type := list Identifier → CollectionAnswer.

(** The exact-name endpoint, as the [try] of lines 248-253 sees it: a
    record, or [None] when anything in the [try] raises. *)
Definition NamedLookup : Type := string → option CardObj.t.

(** Lines 225-243: the loop over the batches; [starts] are the values of
    [i] still to come.  [inl] is the exception that ends the loop: the one
    of the call or the [RuntimeError] of line 230. *)
Fixpoint fetch_batches (rows : list CsvRow.t) (sets : list SetObj.t)
    (collection : CollectionLookup) (identifiers : list Identifier)
    (starts : list nat) (result : gmap nat Card.t)
    : string + gmap nat Card.t :=
  match starts with
  | [] => inr result
  | i :: starts' =>
      let batch := take MAX_BATCH (drop i identifiers) in
      match collection batch with
      | Raised e => inl e
      | NoData =>
          inl "Unexpected Scryfall response format for collection endpoint"
      | Data data =>
          let indices := unresolved_indices i (length batch) (length rows) in
          fetch_batches rows sets collection identifiers starts'
            (greedy_match rows sets indices data result)
      end
  end.

(** Lines 246-253: the fallback pass over [enumerate(rows)]. *)
Fixpoint fallback (named : NamedLookup) (idx : nat) (rows : list CsvRow.t)
    (result : gmap nat Card.t) : gmap nat Card.t :=
  match rows with
  | [] => result
  | r :: rows' =>
      fallback named (S idx) rows'
        (match result !! idx with
         | Some _ => result
         | None =>
             match named (CsvRow.name r) with
             | Some d => <[idx := Card.from_scryfall d]> result
             | None => result
             end
         end)
  end.

(** [range(0, n, MAX_BATCH)] *)
Definition batch_starts (n : nat) : list nat :=
  (λ k, k * MAX_BATCH)%nat <$> seq 0 ((n + MAX_BATCH - 1) / MAX_BATCH).

(** [fetch_cards] *)
Definition fetch_cards (rows : list CsvRow.t) (sets : list SetObj.t)
    (collection : CollectionLookup) (named : NamedLookup)
    : string + gmap nat Card.t :=
  let identifiers := build_identifiers rows sets in
  match fetch_batches rows sets collection identifiers
          (batch_starts (length identifiers)) ∅ with
  | inl e => inl e
  | inr result => inr (fallback named 0 rows result)
  end.

(** ** CSV loading *)

(** [REQ_COLS] *)
Definition REQ_COLS : list string := ["card name"; "set code / set name"].

(** Line 104: [{h.lower().strip(): h for h in reader.fieldnames}] *)
Definition headers_of (fieldnames : list string) : gmap string string :=
  fold_left (λ m h, <[Py.strip (Py.lower h) := h]> m) fieldnames ∅.

(** Lines 105-107: the first required column that is missing, if any. *)
Fixpoint missing_col (headers : gmap string string) (cols : list string)
    : option string :=
  match cols with
  | [] => None
  | col :: cols' =>
      match headers !! col with
      | None => Some col
      | Some _ => missing_col headers cols'
      end
  end.

(** [raw.get(h)] for a header name. *)
Definition raw_get (raw : RawRow.t) (h : string) : option string :=
  RawRow.fields raw !! h.

(** Line 123: [(raw.get(h_qty) or "1").strip()] *)
Definition quantity_text (raw : RawRow.t) (h_qty : string) : string :=
  Py.strip (if Py.truthy (raw_get raw h_qty)
            then Py.or_empty (raw_get raw h_qty) else "1").

(** Lines 121-127: the quantity of a row; [inl v] is the text that
    [int] refuses. *)
Definition row_quantity (raw : RawRow.t) (h_qty : option string)
    : string + Z :=
  if Py.truthy h_qty then
    let v := quantity_text raw (Py.or_empty h_qty) in
    match Py.int v with
    | Some n => inr (Z.max 1 n)
    | None => inl v
    end
  else inr 1.

Definition invalid_quantity_msg (i : nat) (v name : string) : string :=
  "Row " +:+ Py.str_of_int (Z.of_nat i) +:+ ": invalid Quantity '" +:+ v +:+
  "' for '" +:+ name +:+ "'".

(** The message of the [AttributeError] raised by [.strip()] on a list. *)
Definition no_strip_msg : string := "'list' object has no attribute 'strip'".

(** Lines 128-129: [(raw.get(h) or "").strip() or None] for the header [h]
    of an optional column.  When the column is absent [h] is [None], and
    [raw.get(None)] is the list of the fields beyond the header, if there
    are any: [.strip()] then raises. *)
Definition optional_field (raw : RawRow.t) (h : option string)
    : string + option string :=
  match h with
  | Some h => inr (Py.or_none (Py.strip (Py.or_empty (raw_get raw h))))
  | None =>
      match RawRow.rest raw with
      | [] => inr (Py.or_none (Py.strip ""))
      | _ => inl no_strip_msg
      end
  end.

(** Lines 117-130: the body of the loop over the lines; [inr None] is the
    [continue] of a line without a card name. *)
Definition load_row (h_name h_set : string) (h_qty h_num h_id : option string)
    (i : nat) (raw : RawRow.t) : string + option CsvRow.t :=
  let name := Py.strip (Py.or_empty (raw_get raw h_name)) in
  match name with
  | EmptyString => inr None
  | _ =>
      let set_input := Py.or_none (Py.strip (Py.or_empty (raw_get raw h_set))) in
      match row_quantity raw h_qty with
      | inl v => inl (invalid_quantity_msg i v name)
      | inr qty =>
          match optional_field raw h_num with
          | inl e => inl e
          | inr card_number =>
              match optional_field raw h_id with
              | inl e => inl e
              | inr scryfall_id =>
                  inr (Some {| CsvRow.name := name;
                               CsvRow.set_input := set_input;
                               CsvRow.quantity := qty;
                               CsvRow.card_number := card_number;
                               CsvRow.scryfall_id := scryfall_id;
                               CsvRow.is_commander := false |})
              end
          end
      end
  end.

(** Lines 116-130: the loop over [enumerate(reader, start=2)]. *)
Fixpoint load_rows (h_name h_set : string) (h_qty h_num h_id : option string)
    (i : nat) (raws : list RawRow.t) (rows : list CsvRow.t)
    : string + list CsvRow.t :=
  match raws with
  | [] => inr rows
  | raw :: raws' =>
      match load_row h_name h_set h_qty h_num h_id i raw with
      | inl e => inl e
      | inr None => load_rows h_name h_set h_qty h_num h_id (S i) raws' rows
      | inr (Some r) =>
          load_rows h_name h_set h_qty h_num h_id (S i) raws' (rows ++ [r])
      end
  end.

(** [load_csv], on the header and the lines as [csv.DictReader] yields
    them.  [inl] is the message of the exception raised. *)
Definition load_csv (fieldnames : list string) (raws : list RawRow.t)
    : string + list CsvRow.t :=
  match fieldnames with
  | [] => inl "CSV appears to have no header row."
  | _ =>
      let headers := headers_of fieldnames in
      match missing_col headers REQ_COLS with
      | Some col => inl ("CSV must include a '" +:+ col +:+ "' column")
      | None =>
          let h_name := default "" (headers !! "card name") in
          let h_set := default "" (headers !! "set code / set name") in
          let h_qty := headers !! "quantity" in
          let h_num := headers !! "card number" in
          let h_id := headers !! "scryfall id" in
          match load_rows h_name h_set h_qty h_num h_id 2 raws [] with
          | inl e => inl e
          | inr [] => inl "No rows found in CSV."
          | inr rows => inr rows
          end
      end
  end.

(** ** The run *)

Inductive Outcome : Type :=
  | Exit (code : nat)
  | Uncaught (message : string).

(** Lines 414-418: the rows named by [--commander] are flagged. *)
Definition mark_commanders (commander : list string) (rows : list CsvRow.t)
    : list CsvRow.t :=
  match commander with
  | [] => rows
  | _ =>
      let want := Py.lower <$> commander in
      (λ r, if bool_decide (Py.lower (CsvRow.name r) ∈ want)
            then {| CsvRow.name := CsvRow.name r;
                    CsvRow.set_input := CsvRow.set_input r;
                    CsvRow.quantity := CsvRow.quantity r;
                    CsvRow.card_number := CsvRow.card_number r;
                    CsvRow.scryfall_id := CsvRow.scryfall_id r;
                    CsvRow.is_commander := true |}
            else r) <$> rows
  end.

(** [main], as far as its exit status goes: the deck list is loaded before
    anything is asked of the card source ([sets], [collection], [named]);
    the report files and the console summary are left out. *)
Definition main (csv_exists : bool) (fieldnames : list string)
    (raws : list RawRow.t) (commander : list string)
    (sets : list SetObj.t) (collection : CollectionLookup) (named : NamedLookup)
    : Outcome :=
  if negb csv_exists then Exit 2
  else
    match load_csv fieldnames raws with
    | inl _ => Exit 2
    | inr rows =>
        let rows := mark_commanders commander rows in
        match fetch_cards rows sets collection named with
        | inl e => Uncaught e
        | inr cards_by_index =>
            match DeckValidation.issues (validate_deck rows cards_by_index) with
            | [] => Exit 0
            | _ => Exit 1
            end
        end
    end.

(** ** The text export *)






(** * Notions the theorems are stated with *)

(** ** What each row contributes *)

(** What one row appends, read off the loop body run on empty lists. *)
Definition row_issues (nc : gmap string Z) (commander_colors : list string)
    (cards_by_index : gmap nat Card.t) (idx : nat) (r : CsvRow.t) : list string :=
  (check_row nc commander_colors cards_by_index idx r ([], [])).1.

Definition row_warnings (nc : gmap string Z) (commander_colors : list string)
    (cards_by_index : gmap nat Card.t) (idx : nat) (r : CsvRow.t) : list string :=
  (check_row nc commander_colors cards_by_index idx r ([], [])).2.

Definition rows_issues (nc : gmap string Z) (commander_colors : list string)
    (cards_by_index : gmap nat Card.t) (idx : nat) (rows : list CsvRow.t) : list string :=
  (check_rows nc commander_colors cards_by_index idx rows ([], [])).1.

Definition rows_warnings (nc : gmap string Z) (commander_colors : list string)
    (cards_by_index : gmap nat Card.t) (idx : nat) (rows : list CsvRow.t) : list string :=
  (check_rows nc commander_colors cards_by_index idx rows ([], [])).2.

(** ** Telling the messages apart *)

(** The first three characters tell which check wrote a message. *)
Definition kind (s : string) : string := String.substring 0 3 s.

(** ** Totals, as the rules word them *)

(** The sum of all row quantities, as the specification words it. *)
Fixpoint quantity_sum (rows : list CsvRow.t) : Z :=
  match rows with
  | [] => 0
  | r :: rows' => CsvRow.quantity r + quantity_sum rows'
  end.

(** The total quantity across all rows bearing exactly the name [n]. *)
Fixpoint name_total (n : string) (rows : list CsvRow.t) : Z :=
  match rows with
  | [] => 0
  | r :: rows' =>
      (if bool_decide (CsvRow.name r = n) then CsvRow.quantity r else 0)
      + name_total n rows'
  end.

(** ** Commander properties *)

(** The card has a keyword beginning with "partner" whatever the case, or
    its rules text, lower-cased, holds "partner" or "friends forever". *)
Definition partner_capable (c : Card.t) : Prop :=
  (∃ k, k ∈ Card.keywords c ∧ Py.startswith "partner" (Py.lower k) = true) ∨
  Py.contains "partner" (Py.lower (Card.oracle_text c)) = true ∨
  Py.contains "friends forever" (Py.lower (Card.oracle_text c)) = true.

(** The type line lacks "Legendary Creature" and the rules text,
    lower-cased, lacks "can be your commander". *)
Definition lacks_eligibility (c : Card.t) : Prop :=
  Py.contains "Legendary Creature" (Card.type_line c) = false ∧
  Py.contains "can be your commander" (Py.lower (Card.oracle_text c)) = false.

(** The messages of the commander block, recognised by how they begin. *)
Definition commander_kind (s : string) : Prop :=
  kind s ∈ ["No "; "Com"; "Two"; "Mor"].

Definition commander_issues (v : DeckValidation.t) : list string :=
  filter commander_kind (DeckValidation.issues v).

(** ** First match in a list *)

(** [P] holds of the entry at position [k] and of none before it. *)
Definition first_match {A} (P : A → Prop) (l : list A) (k : nat) (x : A) : Prop :=
  l !! k = Some x ∧ P x ∧
  ∀ j y, (j < k)%nat → l !! j = Some y → ¬ P y.

(** Equality of names whatever the case. *)
Definition name_equal (s : string) (st : SetObj.t) : Prop :=
  Py.lower (Py.or_empty (SetObj.name st)) = Py.lower s.

(** The set name holds [s] whatever the case. *)
Definition name_contains (s : string) (st : SetObj.t) : Prop :=
  Py.contains (Py.lower s) (Py.lower (Py.or_empty (SetObj.name st))) = true.

(** A token of length 3 to 5 consisting only of letters and digits. *)
Definition code_like (s : string) : Prop :=
  (3 ≤ Py.len s ≤ 5)%nat ∧ Py.isalnum s = true.

(** ** The three rules of the matcher *)

(** The row has an external identifier and the candidate bears it. *)
Definition rule_id (row : CsvRow.t) (card_obj : CardObj.t) : Prop :=
  ∃ i, CsvRow.scryfall_id row = Some i ∧ i ≠ "" ∧ CardObj.id card_obj = Some i.

(** The row has a resolved set code and a collector number, and the
    candidate's set and collector number, taken as strings, equal them. *)
Definition rule_set_number (row : CsvRow.t) (card_obj : CardObj.t)
    (sets : list SetObj.t) : Prop :=
  ∃ code num,
    resolve_set_code (CsvRow.set_input row) sets = Some code ∧ code ≠ "" ∧
    CsvRow.card_number row = Some num ∧ num ≠ "" ∧
    CardObj.set card_obj = Some code ∧
    Py.str_of_opt (CardObj.collector_number card_obj) = num.

(** The names are equal whatever the case, and when the row resolves to a
    set code the candidate's set is that code. *)
Definition rule_name (row : CsvRow.t) (card_obj : CardObj.t)
    (sets : list SetObj.t) : Prop :=
  Py.lower (Py.or_empty (CardObj.name card_obj)) = Py.lower (CsvRow.name row) ∧
  ∀ code, resolve_set_code (CsvRow.set_input row) sets = Some code → code ≠ "" →
          CardObj.set card_obj = Some code.

(** ** The lines of the deck list *)

(** The card name of a line of the deck list: the field under the card
    name column, stripped. *)
Definition line_name (fieldnames : list string) (raw : RawRow.t) : string :=
  Py.strip (Py.or_empty
    (RawRow.fields raw !! default "" (headers_of fieldnames !! "card name"))).

(** The text of the quantity of a line, under the quantity column [h]: a
    missing or empty field stands for "1". *)
Definition quantity_field (raw : RawRow.t) (h : string) : string :=
  match RawRow.fields raw !! h with
  | Some (String a s) => String a s
  | _ => "1"
  end.

(** [q] is the quantity of a line: 1 when the deck list has no quantity
    column, else [max(1, n)] for the integer [n] that [int] reads from
    the stripped quantity text. *)
Definition line_quantity (h_qty : option string) (raw : RawRow.t) (q : Z) : Prop :=
  match h_qty with
  | None => q = 1
  | Some h => ∃ n, Py.int (Py.strip (quantity_field raw h)) = Some n ∧ q = Z.max 1 n
  end.

(** The line can be loaded: its quantity text is read by [int], and it has
    no field beyond the header unless the card number and the identifier
    columns are both there. *)
Definition line_loads (h_qty h_num h_id : option string) (raw : RawRow.t) : Prop :=
  (∀ h, h_qty = Some h → is_Some (Py.int (Py.strip (quantity_field raw h)))) ∧
  (RawRow.rest raw = [] ∨ (is_Some h_num ∧ is_Some h_id)).

(** ** The pairings of the greedy assignment *)


(** The row-to-record pairings the loop makes, in the order of the records. *)
Fixpoint pairings (rows : list CsvRow.t) (sets : list SetObj.t)
    (indices : list nat) (data : list CardObj.t) (result : gmap nat Card.t)
    : list (nat * CardObj.t) :=
  match data with
  | [] => []
  | card_obj :: data' =>
      match first_fit rows sets result card_obj indices with
      | Some idx =>
          (idx, card_obj) ::
          pairings rows sets indices data' (<[idx := Card.from_scryfall card_obj]> result)
      | None => pairings rows sets indices data' result
      end
  end.

(** ** Notions the further properties are stated with *)

(** The record satisfies the lookup key: it agrees with the key on the
    fields the key holds, names being compared whatever the case. *)
Definition satisfies_key (key : Identifier) (card_obj : CardObj.t) : Prop :=
  match key with
  | ById id => CardObj.id card_obj = Some id
  | BySetNumber set collector_number =>
      CardObj.set card_obj = Some set ∧
      CardObj.collector_number card_obj = Some collector_number
  | ByNameSet name set =>
      Py.lower (Py.or_empty (CardObj.name card_obj)) = Py.lower name ∧
      CardObj.set card_obj = Some set
  | ByName name =>
      Py.lower (Py.or_empty (CardObj.name card_obj)) = Py.lower name
  end.

(** The batches of identifiers that [fetch_cards] submits, in order. *)
Definition batches_of (identifiers : list Identifier) : list (list Identifier) :=
  (λ i, take MAX_BATCH (drop i identifiers)) <$> batch_starts (length identifiers).

(** What [validate_deck] asks of the detected commanders. *)
Definition commanders_ok (commanders : list Card.t) : Prop :=
  match commanders with
  | [c0] => ¬ lacks_eligibility c0
  | [c0; c1] => partner_capable c0 ∧ partner_capable c1
  | _ => False
  end.

(** What [validate_deck] asks of a resolved card, given the rows and the
    commander colors [cc]. *)
Definition card_ok (rows : list CsvRow.t) (cc : list string) (c : Card.t) : Prop :=
  Card.legalities c !! "commander" ≠ Some "banned" ∧
  (Card.is_basic_land c = true ∨ Card.name c ∈ ALLOWED_DUP_EXCEPTIONS ∨
   name_total (Card.name c) rows ≤ 1) ∧
  (cc = [] ∨ ∀ x, x ∈ Card.color_identity c → x ∈ cc).

(** Where the card of a row position comes from: a record [d] that some
    batch answer holds and the matcher accepts for the row. *)
Definition from_batch (rows : list CsvRow.t) (sets : list SetObj.t)
    (collection : CollectionLookup) (idx : nat) (c : Card.t) : Prop :=
  ∃ row d batch data,
    rows !! idx = Some row ∧ c = Card.from_scryfall d ∧
    _row_matches_card row d sets = true ∧
    batch ∈ batches_of (build_identifiers rows sets) ∧
    collection batch = Data data ∧ d ∈ data.

End program.

(** * The text operations on the ASCII range *)

Module AsciiText.

Definition code (a : ascii) : N := N_of_ascii a.

Definition is_upper (a : ascii) : bool :=
  ((65 <=? code a) && (code a <=? 90))%N.

Definition is_lower (a : ascii) : bool :=
  ((97 <=? code a) && (code a <=? 122))%N.

Definition is_digit (a : ascii) : bool :=
  ((48 <=? code a) && (code a <=? 57))%N.

(** [str.isspace] on one character: TAB..CR, FS..US and the blank. *)
Definition is_space (a : ascii) : bool :=
  ((9 <=? code a) && (code a <=? 13) ||
   (28 <=? code a) && (code a <=? 31) ||
   (code a =? 32))%N.

Definition is_alnum (a : ascii) : bool :=
  is_upper a || is_lower a || is_digit a.

Definition lower_char (a : ascii) : ascii :=
  if is_upper a then ascii_of_N (code a + 32) else a.

Fixpoint lower (s : string) : string :=
  match s with
  | EmptyString => EmptyString
  | String a s' => String (lower_char a) (lower s')
  end.

Definition upper_char (a : ascii) : ascii :=
  if is_lower a then ascii_of_N (code a - 32) else a.

Fixpoint upper (s : string) : string :=
  match s with
  | EmptyString => EmptyString
  | String a s' => String (upper_char a) (upper s')
  end.

Fixpoint lstrip (s : string) : string :=
  match s with
  | EmptyString => EmptyString
  | String a s' => if is_space a then lstrip s' else s
  end.

Definition strip (s : string) : string :=
  String.rev (lstrip (String.rev (lstrip s))).

Fixpoint all_chars (p : ascii → bool) (s : string) : bool :=
  match s with
  | EmptyString => true
  | String a s' => p a && all_chars p s'
  end.

(** False on the empty string. *)
Definition isalnum (s : string) : bool :=
  match s with
  | EmptyString => false
  | _ => all_chars is_alnum s
  end.

Definition digit_val (a : ascii) : Z := Z.of_N (code a) - 48.

(** The digits of a decimal literal: [digit (["_"] digit)*].
    [acc] is the value read so far, [after_digit] tells whether the
    previous character was a digit. *)
Fixpoint int_digits (acc : Z) (after_digit : bool) (s : string) : option Z :=
  match s with
  | EmptyString => if after_digit then Some acc else None
  | String a s' =>
      if is_digit a then int_digits (10 * acc + digit_val a) true s'
      else if (code a =? 95)%N && after_digit then int_digits acc false s'
      else None
  end.

Fixpoint count_digits (s : string) : nat :=
  match s with
  | EmptyString => 0
  | String a s' => ((if is_digit a then 1 else 0) + count_digits s')%nat
  end.

(** Base 10: blanks around, an optional sign and a decimal literal of at
    most 4300 digits, the default limit of the interpreter. *)
Definition int (v : string) : option Z :=
  if (4300 <? count_digits v)%nat then None
  else
    match strip v with
    | String "-" s' => Z.opp <$> int_digits 0 false s'
    | String "+" s' => int_digits 0 false s'
    | s => int_digits 0 false s
    end.

Definition hex_digit (n : N) : ascii :=
  if (n <? 10)%N then ascii_of_N (48 + n) else ascii_of_N (87 + n).

Definition dquote : ascii := ascii_of_N 34.
Definition squote : ascii := ascii_of_N 39.
Definition backslash : ascii := ascii_of_N 92.

Definition has_char (a : ascii) (s : string) : bool :=
  negb (all_chars (fun b => negb (Ascii.eqb a b)) s).

Definition repr_char (q a : ascii) : string :=
  if Ascii.eqb a backslash then String backslash (String backslash "")
  else if Ascii.eqb a q then String backslash (String q "")
  else if (code a =? 9)%N then String backslash "t"
  else if (code a =? 10)%N then String backslash "n"
  else if (code a =? 13)%N then String backslash "r"
  else if ((code a <? 32) || (code a =? 127))%N then
    String backslash
      (String "x" (String (hex_digit (code a / 16))
                     (String (hex_digit (code a mod 16)) "")))
  else String a "".

Fixpoint repr_body (q : ascii) (s : string) : string :=
  match s with
  | EmptyString => EmptyString
  | String a s' => repr_char q a +:+ repr_body q s'
  end.

(** Single quotes unless the text has a single quote and no double quote. *)
Definition repr (s : string) : string :=
  let q := if has_char squote s && negb (has_char dquote s)
           then dquote else squote in
  String q (repr_body q s +:+ String q "").

End AsciiText.

Definition ascii_text : Py.Text.
Proof.
  refine {| Py.lower := AsciiText.lower; Py.upper := AsciiText.upper;
            Py.strip := AsciiText.strip; Py.isalnum := AsciiText.isalnum;
            Py.len := String.length; Py.int := AsciiText.int;
            Py.repr := AsciiText.repr |}.
  - reflexivity.
  - intros [|a s]; [reflexivity | discriminate].
  - reflexivity.
  - reflexivity.
  - intros [|a s]; [discriminate|].
    unfold AsciiText.isalnum. generalize (String a s). clear a s.
    intros s. induction s as [|a s IH]; [reflexivity|].
    cbn [AsciiText.all_chars]. intros [Ha Hs]%andb_true_iff.
    cbn [Py.contains]. rewrite (IH Hs), orb_false_r.
    cbn [String.prefix]. destruct (ascii_dec " " a) as [<-|Hne]; [|reflexivity].
    discriminate Ha.
  - reflexivity.
  - reflexivity.
Defined.

(** * Sample data *)

Definition ex_row (name : string) (qty : Z) (cmd : bool) : CsvRow.t :=
  {| CsvRow.name := name; CsvRow.set_input := None; CsvRow.quantity := qty;
     CsvRow.card_number := None; CsvRow.scryfall_id := None;
     CsvRow.is_commander := cmd |}.

Definition ex_card (name type_line : string) (ci : list string)
    (status : option string) : Card.t :=
  {| Card.name := name; Card.set := Some "lea"; Card.collector_number := Some "1";
     Card.type_line := type_line; Card.color_identity := ci;
     Card.legalities :=
       match status with Some s => {["commander" := s]} | None => ∅ end;
     Card.oracle_text := ""; Card.keywords := [];
     Card.is_basic_land := Py.contains "Basic Land" type_line |}.

Definition ex_rows : list CsvRow.t :=
  [ex_row "Omnath" 1 true; ex_row "Sol Ring" 2 false;
   ex_row "Lightning Bolt" 1 false; ex_row "Black Lotus" 1 false;
   ex_row "Forest" 30 false; ex_row "Mystery" 1 false;
   ex_row "Relentless Rats" 20 false; ex_row "Shahrazad" 1 false].

Definition ex_cards : gmap nat Card.t :=
  list_to_map
    [(0%nat, ex_card "Omnath" "Legendary Creature - Elemental" ["G"] (Some "legal"));
     (1%nat, ex_card "Sol Ring" "Artifact" [] (Some "legal"));
     (2%nat, ex_card "Lightning Bolt" "Instant" ["R"] (Some "legal"));
     (3%nat, ex_card "Black Lotus" "Artifact" [] (Some "banned"));
     (4%nat, ex_card "Forest" "Basic Land - Forest" ["G"] (Some "legal"));
     (6%nat, ex_card "Relentless Rats" "Creature - Rat" ["B"] (Some "legal"));
     (7%nat, ex_card "Shahrazad" "Sorcery" ["W"] None)].

(** A record of the card source, and a row that names it. *)
Definition ex_obj (id name set number : string) : CardObj.t :=
  {| CardObj.id := Some id; CardObj.name := Some name; CardObj.set := Some set;
     CardObj.collector_number := Some number; CardObj.type_line := Some "Artifact";
     CardObj.color_identity := None; CardObj.legalities := None;
     CardObj.oracle_text := None; CardObj.keywords := None |}.

Definition ex_id_row : CsvRow.t :=
  {| CsvRow.name := "Sol Rnig"; CsvRow.set_input := Some "Alpha";
     CsvRow.quantity := 1; CsvRow.card_number := None;
     CsvRow.scryfall_id := Some "id-1"; CsvRow.is_commander := false |}.

Definition ex_sets : list SetObj.t :=
  [{| SetObj.name := Some "Alpha Strike Deluxe"; SetObj.code := Some "asd" |};
   {| SetObj.name := Some "Limited Edition Alpha"; SetObj.code := Some "lea" |};
   {| SetObj.name := Some "Alpha Strike"; SetObj.code := Some "alp" |}].

(** Two rows that the same record matches. *)
Definition ex_twins : list CsvRow.t :=
  [ex_row "Forest" 1 false; ex_row "sol ring" 1 false; ex_row "Sol Ring" 1 false].

(** A deck list of one line with its quantity text, and the row that is
    loaded from it. *)
Definition quantity_fields : list string :=
  ["Card name"; "Set code / Set name"; "Quantity"].

Definition quantity_line (name qty : string) : RawRow.t :=
  {| RawRow.fields :=
       <["Card name" := name]> (<["Set code / Set name" := "LEA"]>
         (<["Quantity" := qty]> ∅));
     RawRow.rest := [] |}.

Definition loaded_row (name : string) (qty : Z) : CsvRow.t :=
  {| CsvRow.name := name; CsvRow.set_input := Some "LEA";
     CsvRow.quantity := qty; CsvRow.card_number := None;
     CsvRow.scryfall_id := None; CsvRow.is_commander := false |}.

(** A card source that answers every batch with one "Sol Ring" record and
    knows the exact name "Forest" only. *)
Definition ex_collection : CollectionLookup :=
  λ _, Data [ex_obj "a" "Sol Ring" "lea" "1"].

Definition ex_named : NamedLookup :=
  λ n, if String.eqb n "Forest" then Some (ex_obj "f" "Forest" "lea" "300")
       else None.

Definition ex_fetched : gmap nat Card.t :=
  list_to_map
    [(0%nat, Card.from_scryfall (ex_obj "f" "Forest" "lea" "300"));
     (1%nat, Card.from_scryfall (ex_obj "a" "Sol Ring" "lea" "1"))].

(** A deck of a commander and ninety-nine basic lands. *)
Definition ex_clean_rows : list CsvRow.t :=
  [ex_row "Omnath" 1 true; ex_row "Forest" 99 false].

Definition ex_clean_cards : gmap nat Card.t :=
  list_to_map
    [(0%nat, ex_card "Omnath" "Legendary Creature - Elemental" ["G"] (Some "legal"));
     (1%nat, ex_card "Forest" "Basic Land - Forest" ["G"] (Some "legal"))].

(** A line of a deck list without a quantity column. *)
Definition ex_fields : list string := [" Card Name"; "Set code / Set name "].

Definition ex_line (name set : string) : RawRow.t :=
  {| RawRow.fields := <[" Card Name" := name]> (<["Set code / Set name " := set]> ∅);
     RawRow.rest := [] |}.

(** * Lemmas and theorems *)

(** Strings as character lists, to reuse the list lemmas. *)
Abbreviation chars := list_ascii_of_string.

Section theorems.
Context `{T : Py.Text}.

(** ** How [validate_deck] accumulates its messages *)

Section accumulation.
Context (nc : gmap string Z) (cc : list string) (cards : gmap nat Card.t).

Lemma legality_check_app c iss ws :
  legality_check c (iss, ws) =
    (iss ++ (legality_check c ([], [])).1, ws ++ (legality_check c ([], [])).2).
Proof.
  unfold legality_check.
  repeat case_match; simpl; by rewrite ?app_nil_r.
Qed.

Lemma singleton_check_app c iss :
  singleton_check nc c iss = iss ++ singleton_check nc c [].
Proof.
  unfold singleton_check. repeat case_match; simpl; by rewrite ?app_nil_r.
Qed.

Lemma color_check_app c iss :
  color_check cc c iss = iss ++ color_check cc c [].
Proof.
  unfold color_check. repeat case_match; simpl; by rewrite ?app_nil_r.
Qed.

(** The messages of a resolved row, block by block. *)
Lemma row_issues_resolved idx r c :
  cards !! idx = Some c →
  row_issues nc cc cards idx r =
    (legality_check c ([], [])).1 ++ singleton_check nc c [] ++ color_check cc c [].
Proof.
  intros Hc. unfold row_issues, check_row. rewrite Hc.
  destruct (legality_check c ([], [])) as [i w] eqn:E. simpl.
  rewrite color_check_app, singleton_check_app. by rewrite <- app_assoc.
Qed.

Lemma row_warnings_resolved idx r c :
  cards !! idx = Some c →
  row_warnings nc cc cards idx r = (legality_check c ([], [])).2.
Proof.
  intros Hc. unfold row_warnings, check_row. rewrite Hc.
  by destruct (legality_check c ([], [])) as [i w] eqn:E.
Qed.

Lemma check_row_app idx r st :
  check_row nc cc cards idx r st =
    (st.1 ++ row_issues nc cc cards idx r, st.2 ++ row_warnings nc cc cards idx r).
Proof.
  destruct st as [iss ws]. unfold row_issues, row_warnings, check_row.
  destruct (cards !! idx) as [c|]; [|simpl; by rewrite app_nil_r].
  rewrite (legality_check_app c iss ws).
  destruct (legality_check c ([], [])) as [i w]. cbn [fst snd].
  rewrite (color_check_app c (singleton_check nc c (iss ++ i))).
  rewrite (singleton_check_app c (iss ++ i)).
  rewrite (color_check_app c (singleton_check nc c i)).
  rewrite (singleton_check_app c i).
  by rewrite <- !app_assoc.
Qed.

Lemma check_rows_app rows : ∀ idx st,
  check_rows nc cc cards idx rows st =
    (st.1 ++ rows_issues nc cc cards idx rows,
     st.2 ++ rows_warnings nc cc cards idx rows).
Proof.
  unfold rows_issues, rows_warnings.
  induction rows as [|r rows IH]; intros idx [iss ws]; simpl.
  - by rewrite !app_nil_r.
  - rewrite (IH (S idx) (check_row nc cc cards idx r (iss, ws))).
    rewrite (IH (S idx) (check_row nc cc cards idx r ([], []))).
    rewrite (check_row_app idx r (iss, ws)). simpl.
    by rewrite <- !app_assoc.
Qed.

Lemma rows_issues_cons idx r rows :
  rows_issues nc cc cards idx (r :: rows) =
    row_issues nc cc cards idx r ++ rows_issues nc cc cards (S idx) rows.
Proof.
  unfold rows_issues at 1. simpl. by rewrite check_rows_app.
Qed.

Lemma rows_warnings_cons idx r rows :
  rows_warnings nc cc cards idx (r :: rows) =
    row_warnings nc cc cards idx r ++ rows_warnings nc cc cards (S idx) rows.
Proof.
  unfold rows_warnings at 1. simpl. by rewrite check_rows_app.
Qed.

Lemma rows_issues_app pre : ∀ idx post,
  rows_issues nc cc cards idx (pre ++ post) =
    rows_issues nc cc cards idx pre ++
    rows_issues nc cc cards (idx + length pre) post.
Proof.
  induction pre as [|r pre IH]; intros idx post; simpl.
  - by rewrite Nat.add_0_r.
  - rewrite !rows_issues_cons, IH, <- app_assoc.
    by replace (S idx + length pre)%nat with (idx + S (length pre))%nat by lia.
Qed.

Lemma rows_warnings_app pre : ∀ idx post,
  rows_warnings nc cc cards idx (pre ++ post) =
    rows_warnings nc cc cards idx pre ++
    rows_warnings nc cc cards (idx + length pre) post.
Proof.
  induction pre as [|r pre IH]; intros idx post; simpl.
  - by rewrite Nat.add_0_r.
  - rewrite !rows_warnings_cons, IH, <- app_assoc.
    by replace (S idx + length pre)%nat with (idx + S (length pre))%nat by lia.
Qed.

Lemma elem_of_rows_issues s rows : ∀ idx,
  s ∈ rows_issues nc cc cards idx rows ↔
  ∃ k r, rows !! k = Some r ∧ s ∈ row_issues nc cc cards (idx + k) r.
Proof.
  induction rows as [|r rows IH]; intros idx.
  - split; [by intros ?%elem_of_nil | by intros (k & r & ? & _)].
  - rewrite rows_issues_cons, elem_of_app, IH. split.
    + intros [H | (k & r' & Hk & H)].
      * exists 0%nat, r. by rewrite Nat.add_0_r.
      * exists (S k), r'. split; [done|].
        by replace (idx + S k)%nat with (S idx + k)%nat by lia.
    + intros ([|k] & r' & Hk & H); simpl in Hk.
      * left. simplify_eq. by rewrite Nat.add_0_r in H.
      * right. exists k, r'. split; [done|].
        by replace (S idx + k)%nat with (idx + S k)%nat by lia.
Qed.

Lemma elem_of_rows_warnings s rows : ∀ idx,
  s ∈ rows_warnings nc cc cards idx rows ↔
  ∃ k r, rows !! k = Some r ∧ s ∈ row_warnings nc cc cards (idx + k) r.
Proof.
  induction rows as [|r rows IH]; intros idx.
  - split; [by intros ?%elem_of_nil | by intros (k & r & ? & _)].
  - rewrite rows_warnings_cons, elem_of_app, IH. split.
    + intros [H | (k & r' & Hk & H)].
      * exists 0%nat, r. by rewrite Nat.add_0_r.
      * exists (S k), r'. split; [done|].
        by replace (idx + S k)%nat with (S idx + k)%nat by lia.
    + intros ([|k] & r' & Hk & H); simpl in Hk.
      * left. simplify_eq. by rewrite Nat.add_0_r in H.
      * right. exists k, r'. split; [done|].
        by replace (S idx + k)%nat with (idx + S k)%nat by lia.
Qed.
End accumulation.

(** The three parts of the issue list, in the order they are appended. *)
Lemma validate_deck_issues rows cards :
  DeckValidation.issues (validate_deck rows cards) =
    (commander_check (detect_commanders rows cards) []).1 ++
    size_check (total_cards rows) [] ++
    rows_issues (name_counts rows)
      (commander_check (detect_commanders rows cards) []).2 cards 0 rows.
Proof.
  unfold validate_deck.
  destruct (commander_check (detect_commanders rows cards) []) as [iss cc] eqn:E.
  rewrite check_rows_app. simpl.
  unfold size_check. case_match; simpl; by rewrite <- ?app_assoc, ?app_nil_r.
Qed.

Lemma validate_deck_warnings rows cards :
  DeckValidation.warnings (validate_deck rows cards) =
    rows_warnings (name_counts rows)
      (commander_check (detect_commanders rows cards) []).2 cards 0 rows.
Proof.
  unfold validate_deck.
  destruct (commander_check (detect_commanders rows cards) []) as [iss cc] eqn:E.
  by rewrite check_rows_app.
Qed.

Lemma validate_deck_colors rows cards :
  DeckValidation.commander_color_id (validate_deck rows cards) =
    (commander_check (detect_commanders rows cards) []).2.
Proof.
  unfold validate_deck.
  destruct (commander_check (detect_commanders rows cards) []) as [iss cc] eqn:E.
  by destruct (check_rows _ _ _ _ _ _).
Qed.

(** ** Telling the messages apart *)

Lemma chars_app (s1 s2 : string) : chars (s1 +:+ s2) = chars s1 ++ chars s2.
Proof. induction s1 as [|a s1 IH]; simpl; [done | by rewrite <- IH]. Qed.

Lemma chars_inj (s1 s2 : string) : chars s1 = chars s2 → s1 = s2.
Proof.
  intros H. rewrite <- (string_of_list_ascii_of_string s1), H.
  apply string_of_list_ascii_of_string.
Qed.

Lemma str_app_assoc (s1 s2 s3 : string) :
  s1 +:+ s2 +:+ s3 = (s1 +:+ s2) +:+ s3.
Proof. apply chars_inj. rewrite !chars_app. apply app_assoc. Qed.

(** The last occurrence of a separator splits a list in one way only. *)
Lemma last_separator {A} (x : A) (l1 : list A) : ∀ l2 r1 r2,
  x ∉ r1 → x ∉ r2 → l1 ++ x :: r1 = l2 ++ x :: r2 → l1 = l2 ∧ r1 = r2.
Proof.
  induction l1 as [|a l1 IH]; intros [|b l2] r1 r2 H1 H2 E; simpl in E.
  - by injection E as ->.
  - injection E as -> ->. exfalso. apply H1, elem_of_app. right. by left.
  - injection E as -> <-. exfalso. apply H2, elem_of_app. right. by left.
  - injection E as -> E. destruct (IH l2 r1 r2) as [-> ->]; done.
Qed.

Lemma uint_no_space d : " "%char ∉ chars (NilEmpty.string_of_uint d).
Proof.
  induction d; simpl; [by apply not_elem_of_nil|..];
    (apply not_elem_of_cons; split; [discriminate | done]).
Qed.

Lemma str_of_int_no_space n : " "%char ∉ chars (Py.str_of_int n).
Proof.
  unfold Py.str_of_int. destruct (Z.to_int n) as [d|d]; simpl.
  - apply uint_no_space.
  - apply not_elem_of_cons. split; [discriminate | apply uint_no_space].
Qed.

Lemma str_of_int_inj n1 n2 : Py.str_of_int n1 = Py.str_of_int n2 → n1 = n2.
Proof.
  unfold Py.str_of_int. intros H. apply DecimalZ.to_int_inj.
  assert (Some (Z.to_int n1) = Some (Z.to_int n2)) as [= ->]; [|done].
  by rewrite <- !NilEmpty.isi, H.
Qed.

(** A text framed as [P n A d T], where neither [d] nor the tail of [T]
    holds the separator that ends [A] and starts [T], is read back in one
    way only. *)
Lemma frame_inj {A} (sp : A) (P A' T' n1 d1 n2 d2 : list A) :
  sp ∉ T' → sp ∉ d1 → sp ∉ d2 →
  P ++ n1 ++ (A' ++ [sp]) ++ d1 ++ sp :: T' =
  P ++ n2 ++ (A' ++ [sp]) ++ d2 ++ sp :: T' →
  n1 = n2 ∧ d1 = d2.
Proof.
  intros HT H1 H2 E. apply app_inv_head in E.
  assert (∀ n d, n ++ (A' ++ [sp]) ++ d ++ sp :: T' =
                 ((n ++ A') ++ sp :: d) ++ sp :: T') as R.
  { intros n d. by rewrite <- !app_assoc. }
  rewrite !R in E. apply last_separator in E as [E _]; [|done..].
  apply last_separator in E as [E ->]; [|done..].
  by apply app_inv_tail in E.
Qed.

(** A singleton message determines the name and the count it cites. *)
Lemma singleton_msg_inj n1 k1 n2 k2 :
  singleton_msg n1 k1 = singleton_msg n2 k2 → n1 = n2 ∧ k1 = k2.
Proof.
  unfold singleton_msg. intros H%(f_equal chars).
  rewrite !chars_app in H.
  apply (frame_inj " "%char _ (chars " appears") (chars "times.")) in H
    as [H1 H2].
  - split; [by apply chars_inj | by apply str_of_int_inj, chars_inj].
  - intros Hin%list_elem_of_In. simpl in Hin. intuition discriminate.
  - apply str_of_int_no_space.
  - apply str_of_int_no_space.
Qed.

Lemma size_msg_inj t1 t2 : size_msg t1 = size_msg t2 → t1 = t2.
Proof.
  unfold size_msg. intros H%String.app_inj%(f_equal chars).
  rewrite !chars_app in H. by apply app_inv_tail, chars_inj, str_of_int_inj in H.
Qed.

Lemma banned_msg_inj n1 n2 : banned_msg n1 = banned_msg n2 → n1 = n2.
Proof. unfold banned_msg. by intros H%String.app_inj. Qed.

Lemma kind_commander_issue commanders s :
  s ∈ (commander_check commanders []).1 →
  kind s ∈ ["No "; "Com"; "Two"; "Mor"].
Proof.
  unfold commander_check. intros H.
  repeat case_match; simpl in H;
    repeat (apply elem_of_cons in H as [->|H]); try (by apply elem_of_nil in H);
    vm_compute; set_solver.
Qed.

Lemma elem_of_size_check s total :
  s ∈ size_check total [] ↔ s = size_msg total ∧ total ≠ 100.
Proof.
  unfold size_check. destruct (Z.eqb_spec total 100) as [E|E]; simpl.
  - rewrite elem_of_nil. naive_solver.
  - rewrite list_elem_of_singleton. naive_solver.
Qed.

Lemma elem_of_legality_issues s c :
  s ∈ (legality_check c ([], [])).1 ↔
  s = banned_msg (Card.name c) ∧ Card.legalities c !! "commander" = Some "banned".
Proof.
  unfold legality_check. case_bool_decide as E; simpl.
  - rewrite list_elem_of_singleton. naive_solver.
  - case_match; simpl; rewrite elem_of_nil; naive_solver.
Qed.

Lemma elem_of_legality_warnings s c :
  s ∈ (legality_check c ([], [])).2 ↔
  s = not_legal_msg (Card.legalities c !! "commander") (Card.name c) ∧
  Card.legalities c !! "commander" ≠ Some "banned" ∧
  Card.legalities c !! "commander" ≠ Some "legal" ∧
  Card.legalities c !! "commander" ≠ Some "restricted".
Proof.
  unfold legality_check. case_bool_decide as E; simpl.
  - rewrite elem_of_nil. naive_solver.
  - repeat case_bool_decide; simpl;
      rewrite ?elem_of_nil, ?list_elem_of_singleton; naive_solver.
Qed.

Lemma elem_of_singleton_check s nc c :
  s ∈ singleton_check nc c [] ↔
  s = singleton_msg (Card.name c) (default 0 (nc !! Card.name c)) ∧
  Card.is_basic_land c = false ∧
  (Card.name c ∉ ALLOWED_DUP_EXCEPTIONS) ∧
  1 < default 0 (nc !! Card.name c).
Proof.
  unfold singleton_check.
  destruct (Card.is_basic_land c); simpl; [rewrite elem_of_nil; naive_solver|].
  case_bool_decide as E; simpl; [rewrite elem_of_nil; naive_solver|].
  destruct (Z.gtb_spec (default 0 (nc !! Card.name c)) 1); simpl.
  - rewrite list_elem_of_singleton. split; [intros ->; repeat split; [done|lia] | naive_solver].
  - rewrite elem_of_nil. split; [done | intros (_ & _ & _ & ?); lia].
Qed.

Lemma elem_of_color_check s cc c :
  s ∈ color_check cc c [] ↔
  s = color_msg (Card.name c) (Py.sorted_set (Card.color_identity c)) cc ∧
  cc ≠ [] ∧ issubset (Card.color_identity c) cc = false.
Proof.
  unfold color_check. destruct cc as [|x cc]; [rewrite elem_of_nil; naive_solver|].
  destruct (issubset _ _); simpl.
  - rewrite elem_of_nil. naive_solver.
  - rewrite list_elem_of_singleton. naive_solver.
Qed.

Lemma row_issues_unresolved nc cc cards idx r :
  cards !! idx = None → row_issues nc cc cards idx r = [unresolved_msg r].
Proof. intros H. unfold row_issues, check_row. by rewrite H. Qed.

Lemma row_warnings_unresolved nc cc cards idx r :
  cards !! idx = None → row_warnings nc cc cards idx r = [].
Proof. intros H. unfold row_warnings, check_row. by rewrite H. Qed.

(** Every message of the row loop comes from one of its four sources. *)
Lemma elem_of_row_issues s nc cc cards idx r :
  s ∈ row_issues nc cc cards idx r ↔
  (cards !! idx = None ∧ s = unresolved_msg r) ∨
  (∃ c, cards !! idx = Some c ∧
        (s ∈ (legality_check c ([], [])).1 ∨ s ∈ singleton_check nc c [] ∨
         s ∈ color_check cc c [])).
Proof.
  destruct (cards !! idx) as [c|] eqn:E.
  - rewrite (row_issues_resolved _ _ _ _ _ c E), !elem_of_app. naive_solver.
  - rewrite row_issues_unresolved, list_elem_of_singleton by done. naive_solver.
Qed.

Lemma kind_row_issue s nc cc cards idx r :
  s ∈ row_issues nc cc cards idx r →
  kind s ∈ ["Car"; "BAN"; "Sin"; "Col"].
Proof.
  intros [[_ ->] | (c & _ & [H | [H | H]])]%elem_of_row_issues.
  - vm_compute. set_solver.
  - apply elem_of_legality_issues in H as [-> _]. vm_compute. set_solver.
  - apply elem_of_singleton_check in H as [-> _]. vm_compute. set_solver.
  - apply elem_of_color_check in H as [-> _]. vm_compute. set_solver.
Qed.

Lemma kind_rows_issue s nc cc cards idx rows :
  s ∈ rows_issues nc cc cards idx rows →
  kind s ∈ ["Car"; "BAN"; "Sin"; "Col"].
Proof.
  rewrite elem_of_rows_issues. intros (k & r & _ & H).
  by eapply kind_row_issue.
Qed.

Lemma prefix_app_r (s t : string) : String.prefix s (s +:+ t) = true.
Proof.
  induction s as [|a s IH]; simpl; [by destruct t|].
  destruct (ascii_dec a a); [apply IH | done].
Qed.

Lemma contains_of_prefix (s t : string) :
  String.prefix s t = true → Py.contains s t = true.
Proof. intros H. destruct t; unfold Py.contains; fold Py.contains; by rewrite H. Qed.

Lemma contains_prefix (s t : string) : Py.contains s (s +:+ t) = true.
Proof. apply contains_of_prefix, prefix_app_r. Qed.

(** [sub in (pre + sub + post)] *)
Lemma contains_app (pre sub post : string) :
  Py.contains sub (pre +:+ sub +:+ post) = true.
Proof.
  induction pre as [|a pre IH].
  - exact (contains_prefix sub post).
  - change (String a pre +:+ sub +:+ post) with (String a (pre +:+ sub +:+ post)).
    simpl. rewrite IH. apply orb_true_r.
Qed.

Lemma contains_app_end (pre sub : string) : Py.contains sub (pre +:+ sub) = true.
Proof.
  replace sub with (sub +:+ "") at 2; [apply contains_app|].
  induction sub as [|a s IH]; [done|].
  change (String a s +:+ "") with (String a (s +:+ "")). by rewrite IH.
Qed.

Lemma prefix_spec (s t : string) :
  String.prefix s t = true ↔ ∃ post, t = s +:+ post.
Proof.
  revert t. induction s as [|a s IH]; intros t.
  - split; [intros _; by exists t | by destruct t].
  - destruct t as [|b t]; cbn [String.prefix].
    + split; [done | by intros [post ?]].
    + destruct (ascii_dec a b) as [<-|Hne].
      * rewrite IH. split; intros [post E]; exists post.
        -- by rewrite E.
        -- by injection E.
      * split; [done|]. intros [post E]. injection E as ? ?. done.
Qed.

Lemma contains_spec (sub s : string) :
  Py.contains sub s = true ↔ ∃ pre post, s = pre +:+ sub +:+ post.
Proof.
  split.
  - induction s as [|a s IH].
    + cbn [Py.contains]. rewrite orb_false_r. intros [post E]%prefix_spec.
      by exists "", post.
    + cbn [Py.contains]. intros [[post E]%prefix_spec | H]%orb_true_iff.
      * by exists "", post.
      * destruct (IH H) as (pre & post & ->). by exists (String a pre), post.
  - intros (pre & post & ->). apply contains_app.
Qed.

Lemma contains_trans (a b c : string) :
  Py.contains a b = true → Py.contains b c = true → Py.contains a c = true.
Proof.
  intros (p1 & q1 & ->)%contains_spec (p2 & q2 & ->)%contains_spec.
  apply contains_spec. exists (p2 +:+ p1), (q1 +:+ q2).
  apply chars_inj. rewrite !chars_app. by rewrite <- !app_assoc.
Qed.

Lemma contains_refl (s : string) : Py.contains s s = true.
Proof. apply contains_spec. exists "", "". apply chars_inj. by rewrite !chars_app, app_nil_r. Qed.

(** [x in sep.join(l)] for an element [x] of [l] *)
Lemma contains_join (x sep : string) (l : list string) :
  x ∈ l → Py.contains x (Py.join sep l) = true.
Proof.
  induction l as [|y l IH]; [by intros ?%elem_of_nil|].
  intros Hin. destruct l as [|z l].
  - apply elem_of_cons in Hin as [->|?%elem_of_nil]; [|done].
    apply contains_refl.
  - change (Py.join sep (y :: z :: l)) with (y +:+ sep +:+ Py.join sep (z :: l)).
    apply elem_of_cons in Hin as [->|Hin].
    + apply contains_prefix.
    + apply (contains_trans _ (Py.join sep (z :: l))); [by apply IH|].
      rewrite str_app_assoc. apply contains_app_end.
Qed.

(** The text of a list names each of its elements. *)
Lemma contains_repr_list (x : string) (l : list string) :
  x ∈ l → Py.contains (Py.repr x) (Py.repr_list l) = true.
Proof.
  intros Hin. unfold Py.repr_list.
  apply (contains_trans _ (Py.join ", " (Py.repr <$> l))).
  - apply contains_join. by apply list_elem_of_fmap_2.
  - apply contains_app.
Qed.

Lemma rows_issues_split nc cc cards rows idx r :
  rows !! idx = Some r →
  rows_issues nc cc cards 0 rows =
    rows_issues nc cc cards 0 (take idx rows) ++
    row_issues nc cc cards idx r ++
    rows_issues nc cc cards (S idx) (drop (S idx) rows).
Proof.
  intros Hr.
  transitivity (rows_issues nc cc cards 0 (take idx rows ++ r :: drop (S idx) rows)).
  { by rewrite take_drop_middle. }
  rewrite rows_issues_app, rows_issues_cons, length_take_le; [done|].
  apply lookup_lt_Some in Hr. lia.
Qed.

Lemma rows_warnings_split nc cc cards rows idx r :
  rows !! idx = Some r →
  rows_warnings nc cc cards 0 rows =
    rows_warnings nc cc cards 0 (take idx rows) ++
    row_warnings nc cc cards idx r ++
    rows_warnings nc cc cards (S idx) (drop (S idx) rows).
Proof.
  intros Hr.
  transitivity (rows_warnings nc cc cards 0 (take idx rows ++ r :: drop (S idx) rows)).
  { by rewrite take_drop_middle. }
  rewrite rows_warnings_app, rows_warnings_cons, length_take_le; [done|].
  apply lookup_lt_Some in Hr. lia.
Qed.

(** The issue list and the warning list, around the messages of the row
    at position [idx]. *)
Lemma validate_deck_issues_at rows cards idx r :
  rows !! idx = Some r →
  let v := validate_deck rows cards in
  let nc := name_counts rows in
  let cc := DeckValidation.commander_color_id v in
  DeckValidation.issues v =
    ((commander_check (detect_commanders rows cards) []).1 ++
     size_check (total_cards rows) [] ++
     rows_issues nc cc cards 0 (take idx rows)) ++
    row_issues nc cc cards idx r ++
    rows_issues nc cc cards (S idx) (drop (S idx) rows).
Proof.
  intros Hr v nc cc. unfold v at 1. rewrite validate_deck_issues.
  rewrite <- !app_assoc. do 2 f_equal.
  unfold cc, v. rewrite validate_deck_colors. fold nc.
  apply rows_issues_split, Hr.
Qed.

Lemma validate_deck_warnings_at rows cards idx r :
  rows !! idx = Some r →
  let v := validate_deck rows cards in
  let nc := name_counts rows in
  let cc := DeckValidation.commander_color_id v in
  DeckValidation.warnings v =
    rows_warnings nc cc cards 0 (take idx rows) ++
    row_warnings nc cc cards idx r ++
    rows_warnings nc cc cards (S idx) (drop (S idx) rows).
Proof.
  intros Hr v nc cc. unfold v at 1. rewrite validate_deck_warnings.
  unfold cc, v. rewrite validate_deck_colors. fold nc.
  apply rows_warnings_split, Hr.
Qed.

(** ** Deck size *)

Lemma total_cards_from rows : ∀ acc,
  fold_left (fun acc r => acc + CsvRow.quantity r) rows acc =
    acc + quantity_sum rows.
Proof.
  induction rows as [|r rows IH]; intros acc; simpl; [lia|].
  rewrite IH. lia.
Qed.

Lemma total_cards_sum rows : total_cards rows = quantity_sum rows.
Proof. unfold total_cards. by rewrite total_cards_from. Qed.

(** C5: the reported deck size is the sum of the row quantities, and the
    issue list holds a deck-size message citing a total [t] exactly when
    [t] is that sum and the sum is not 100. *)
Theorem deck_size_issue_iff rows cards :
  DeckValidation.deck_size (validate_deck rows cards) = quantity_sum rows ∧
  (size_msg (quantity_sum rows) ∈ DeckValidation.issues (validate_deck rows cards)
     ↔ quantity_sum rows ≠ 100) ∧
  (∀ t, size_msg t ∈ DeckValidation.issues (validate_deck rows cards) →
        t = quantity_sum rows).
Proof.
  assert (∀ t, size_msg t ∈ DeckValidation.issues (validate_deck rows cards) ↔
               t = quantity_sum rows ∧ t ≠ 100) as Hiff.
  { intros t. rewrite validate_deck_issues, !elem_of_app, elem_of_size_check,
      total_cards_sum.
    split.
    - intros [H | [[H1 H2] | H]].
      + apply kind_commander_issue in H. vm_compute in H. set_solver.
      + apply size_msg_inj in H1. by subst.
      + apply kind_rows_issue in H. vm_compute in H. set_solver.
    - intros [-> H]. right. by left. }
  split; [|split].
  - unfold validate_deck.
    destruct (commander_check _ _), (check_rows _ _ _ _ _ _). simpl.
    apply total_cards_sum.
  - rewrite Hiff. naive_solver.
  - intros t Ht. by apply Hiff in Ht as [-> _].
Qed.

(** ** Singleton rule *)

Lemma name_counts_from n rows : ∀ nc : gmap string Z,
  default 0
    (fold_left
       (fun nc r => <[CsvRow.name r := default 0 (nc !! CsvRow.name r) + CsvRow.quantity r]> nc)
       rows nc !! n) =
  default 0 (nc !! n) + name_total n rows.
Proof.
  induction rows as [|r rows IH]; intros nc; simpl; [lia|].
  rewrite IH. case_bool_decide as E.
  - subst n. rewrite lookup_insert_eq. simpl. lia.
  - rewrite lookup_insert_ne by done. lia.
Qed.

Lemma name_counts_total n rows :
  default 0 (name_counts rows !! n) = name_total n rows.
Proof. unfold name_counts. by rewrite name_counts_from, lookup_empty. Qed.

(** Where a singleton message in the issue list comes from. *)
Lemma elem_of_issues_singleton rows cards n k :
  singleton_msg n k ∈ DeckValidation.issues (validate_deck rows cards) ↔
  ∃ idx r c, rows !! idx = Some r ∧ cards !! idx = Some c ∧ Card.name c = n ∧
             Card.is_basic_land c = false ∧ (n ∉ ALLOWED_DUP_EXCEPTIONS) ∧
             k = name_total n rows ∧ 1 < k.
Proof.
  rewrite validate_deck_issues, !elem_of_app. split.
  - intros [H | [H | H]].
    + apply kind_commander_issue in H. vm_compute in H. set_solver.
    + apply elem_of_size_check in H as [H _]. discriminate H.
    + apply elem_of_rows_issues in H as (idx & r & Hr & H). simpl in H.
      apply elem_of_row_issues in H as [[_ H] | (c & Hc & [H | [H | H]])].
      * discriminate H.
      * apply elem_of_legality_issues in H as [H _]. discriminate H.
      * apply elem_of_singleton_check in H as (H & Hb & Ha & Hk).
        apply singleton_msg_inj in H as [-> ->].
        rewrite name_counts_total in Hk.
        exists idx, r, c. by rewrite name_counts_total.
      * apply elem_of_color_check in H as [H _]. discriminate H.
  - intros (idx & r & c & Hr & Hc & <- & Hb & Ha & -> & Hk).
    right. right. apply elem_of_rows_issues. exists idx, r. split; [done|].
    simpl. apply elem_of_row_issues. right. exists c. split; [done|].
    right. left. apply elem_of_singleton_check.
    by rewrite name_counts_total.
Qed.

(** Every issue that begins as a singleton message is the singleton
    message of a resolved card that is neither a basic land nor on the
    allow-list, citing the total of the rows that bear its name. *)
Lemma elem_of_issues_Sin rows cards s :
  kind s = "Sin" →
  s ∈ DeckValidation.issues (validate_deck rows cards) →
  ∃ idx r c, rows !! idx = Some r ∧ cards !! idx = Some c ∧
    s = singleton_msg (Card.name c) (name_total (Card.name c) rows) ∧
    Card.is_basic_land c = false ∧ (Card.name c ∉ ALLOWED_DUP_EXCEPTIONS) ∧
    1 < name_total (Card.name c) rows.
Proof.
  intros Hk. rewrite validate_deck_issues, !elem_of_app.
  intros [H | [H | H]].
  - apply kind_commander_issue in H. rewrite Hk in H. vm_compute in H. set_solver.
  - apply elem_of_size_check in H as [-> _]. discriminate Hk.
  - apply elem_of_rows_issues in H as (idx & r & Hr & H). simpl in H.
    apply elem_of_row_issues in H as [[_ ->] | (c & Hc & [H | [H | H]])].
    + discriminate Hk.
    + apply elem_of_legality_issues in H as [-> _]. discriminate Hk.
    + apply elem_of_singleton_check in H as (-> & Hb & Ha & Hgt).
      rewrite name_counts_total in Hgt |- *. by exists idx, r, c.
    + apply elem_of_color_check in H as [-> _]. discriminate Hk.
Qed.

Lemma singleton_check_exempt nc c issues :
  Card.is_basic_land c = true ∨ Card.name c ∈ ALLOWED_DUP_EXCEPTIONS →
  singleton_check nc c issues = issues.
Proof.
  intros H. unfold singleton_check. destruct H as [-> | H]; [done|].
  rewrite (bool_decide_eq_true_2 _ H). by rewrite orb_true_r.
Qed.

(** C1: for a resolved card that is neither a basic land nor on the
    allow-list, the issue list holds the singleton message naming the card
    and citing a count [k] exactly when [k] is the total quantity of the
    rows bearing that exact name and that total exceeds 1.  The row of a
    card that is a basic land or on the allow-list adds its legality and
    color messages to the issue list and nothing else, whatever the counts,
    and no singleton message names an allow-listed card.  Of the whole
    issue list: a singleton message naming [n] and citing [k] is in it
    exactly when some row is resolved to a card named [n] that is neither
    a basic land nor on the allow-list and [k] is the total of [n], above
    1; and every issue that begins as a singleton message is such a
    message. *)
Theorem singleton_issue_iff rows cards idx r c :
  rows !! idx = Some r →
  cards !! idx = Some c →
  let v := validate_deck rows cards in
  let nc := name_counts rows in
  let cc := DeckValidation.commander_color_id v in
  (Card.is_basic_land c = false → (Card.name c ∉ ALLOWED_DUP_EXCEPTIONS) →
   (singleton_msg (Card.name c) (name_total (Card.name c) rows)
      ∈ DeckValidation.issues v
    ↔ 1 < name_total (Card.name c) rows) ∧
   (∀ k, singleton_msg (Card.name c) k ∈ DeckValidation.issues v →
         k = name_total (Card.name c) rows)) ∧
  (Card.is_basic_land c = true ∨ Card.name c ∈ ALLOWED_DUP_EXCEPTIONS →
   (∀ nc' issues, singleton_check nc' c issues = issues) ∧
   DeckValidation.issues v =
     ((commander_check (detect_commanders rows cards) []).1 ++
      size_check (total_cards rows) [] ++
      rows_issues nc cc cards 0 (take idx rows)) ++
     ((legality_check c ([], [])).1 ++ color_check cc c []) ++
     rows_issues nc cc cards (S idx) (drop (S idx) rows)) ∧
  (Card.name c ∈ ALLOWED_DUP_EXCEPTIONS →
   ∀ k, singleton_msg (Card.name c) k ∉ DeckValidation.issues v) ∧
  (∀ n k, singleton_msg n k ∈ DeckValidation.issues v ↔
     ∃ idx' r' c', rows !! idx' = Some r' ∧ cards !! idx' = Some c' ∧
       Card.name c' = n ∧ Card.is_basic_land c' = false ∧
       (n ∉ ALLOWED_DUP_EXCEPTIONS) ∧ k = name_total n rows ∧ 1 < k) ∧
  (∀ s, kind s = "Sin" → s ∈ DeckValidation.issues v →
     ∃ idx' r' c', rows !! idx' = Some r' ∧ cards !! idx' = Some c' ∧
       s = singleton_msg (Card.name c') (name_total (Card.name c') rows) ∧
       Card.is_basic_land c' = false ∧
       (Card.name c' ∉ ALLOWED_DUP_EXCEPTIONS) ∧
       1 < name_total (Card.name c') rows).
Proof.
  intros Hr Hc v nc cc. split; [|split; [|split; [|split]]].
  - intros Hb Ha. split; [split|].
    + intros H. by apply elem_of_issues_singleton in H as (_&_&_&_&_&_&_&_&_&?).
    + intros Hk. apply elem_of_issues_singleton. by exists idx, r, c.
    + intros k H. by apply elem_of_issues_singleton in H as (_&_&_&_&_&_&_&_&?&_).
  - intros H. split; [intros nc' issues; by apply singleton_check_exempt|].
    unfold v at 1. rewrite (validate_deck_issues_at rows cards idx r Hr).
    fold v nc cc. do 2 f_equal.
    rewrite (row_issues_resolved nc cc cards idx r c Hc).
    by rewrite (singleton_check_exempt nc c [] H).
  - intros Ha k H. by apply elem_of_issues_singleton in H as (_&_&_&_&_&_&_&?&_).
  - intros n k. apply elem_of_issues_singleton.
  - intros s Hk Hs. by apply elem_of_issues_Sin.
Qed.

(** ** Format legality *)

(** Where a ban message in the issue list comes from. *)
Lemma elem_of_issues_banned rows cards n :
  banned_msg n ∈ DeckValidation.issues (validate_deck rows cards) ↔
  ∃ idx r c, rows !! idx = Some r ∧ cards !! idx = Some c ∧ Card.name c = n ∧
             Card.legalities c !! "commander" = Some "banned".
Proof.
  rewrite validate_deck_issues, !elem_of_app. split.
  - intros [H | [H | H]].
    + apply kind_commander_issue in H. vm_compute in H. set_solver.
    + apply elem_of_size_check in H as [H _]. discriminate H.
    + apply elem_of_rows_issues in H as (idx & r & Hr & H). simpl in H.
      apply elem_of_row_issues in H as [[_ H] | (c & Hc & [H | [H | H]])].
      * discriminate H.
      * apply elem_of_legality_issues in H as [H%banned_msg_inj Hl].
        by exists idx, r, c.
      * apply elem_of_singleton_check in H as [H _]. discriminate H.
      * apply elem_of_color_check in H as [H _]. discriminate H.
  - intros (idx & r & c & Hr & Hc & <- & Hl).
    right. right. apply elem_of_rows_issues. exists idx, r. split; [done|].
    simpl. apply elem_of_row_issues. right. exists c. split; [done|].
    left. by apply elem_of_legality_issues.
Qed.

Lemma elem_of_validate_warnings rows cards s :
  s ∈ DeckValidation.warnings (validate_deck rows cards) ↔
  ∃ idx r c, rows !! idx = Some r ∧ cards !! idx = Some c ∧
             s ∈ (legality_check c ([], [])).2.
Proof.
  rewrite validate_deck_warnings, elem_of_rows_warnings. simpl. split.
  - intros (idx & r & Hr & H). destruct (cards !! idx) as [c|] eqn:Hc.
    + rewrite (row_warnings_resolved _ _ _ _ _ c Hc) in H. by exists idx, r, c.
    + rewrite row_warnings_unresolved in H by done. by apply elem_of_nil in H.
  - intros (idx & r & c & Hr & Hc & H). exists idx, r. split; [done|].
    by rewrite (row_warnings_resolved _ _ _ _ _ c Hc).
Qed.

(** Where a warning comes from: a resolved card whose status is none of
    "banned", "legal" and "restricted". *)
Lemma elem_of_warnings_status rows cards s :
  s ∈ DeckValidation.warnings (validate_deck rows cards) ↔
  ∃ idx r c, rows !! idx = Some r ∧ cards !! idx = Some c ∧
    s = not_legal_msg (Card.legalities c !! "commander") (Card.name c) ∧
    Card.legalities c !! "commander" ≠ Some "banned" ∧
    Card.legalities c !! "commander" ≠ Some "legal" ∧
    Card.legalities c !! "commander" ≠ Some "restricted".
Proof.
  rewrite elem_of_validate_warnings. split.
  - intros (idx & r & c & Hr & Hc & H%elem_of_legality_warnings).
    by exists idx, r, c.
  - intros (idx & r & c & Hr & Hc & H). exists idx, r, c.
    split; [done|]. split; [done|]. by apply elem_of_legality_warnings.
Qed.

(** The three outcomes of the legality block, on empty lists. *)
Lemma legality_check_cases c :
  let legality := Card.legalities c !! "commander" in
  (legality = Some "banned" →
     legality_check c ([], []) = ([banned_msg (Card.name c)], [])) ∧
  (legality ≠ Some "banned" → legality ≠ Some "legal" →
   legality ≠ Some "restricted" →
     legality_check c ([], []) = ([], [not_legal_msg legality (Card.name c)])) ∧
  (legality = Some "legal" ∨ legality = Some "restricted" →
     legality_check c ([], []) = ([], [])).
Proof.
  intros legality. unfold legality_check. fold legality. split; [|split].
  - intros H. by rewrite bool_decide_eq_true_2.
  - intros H1 H2 H3. by rewrite !bool_decide_eq_false_2.
  - intros [H | H]; rewrite H; by vm_compute.
Qed.

(** C9: the legality block of a resolved card, and what it leaves in the
    validator's result.  Status "banned": one issue, [banned_msg], which
    contains the card's name; the row adds it to the issue list before its
    singleton and color messages, and adds no warning.  Status other than
    "banned", "legal" and "restricted" (an absent status included): the
    row adds one warning citing the status, and no issue besides its
    singleton and color messages.  Status "legal" or "restricted": the row
    adds no warning, and no issue besides its singleton and color messages.
    Of the whole result: a ban message naming [n] is in the issue list
    exactly when some row is resolved to a card named [n] whose status is
    "banned", and a text is in the warning list exactly when it is the
    warning of a resolved card whose status is none of the three. *)
Theorem legality_classification rows cards idx r c :
  rows !! idx = Some r →
  cards !! idx = Some c →
  let v := validate_deck rows cards in
  let nc := name_counts rows in
  let cc := DeckValidation.commander_color_id v in
  let legality := Card.legalities c !! "commander" in
  let before :=
    (commander_check (detect_commanders rows cards) []).1 ++
    size_check (total_cards rows) [] ++
    rows_issues nc cc cards 0 (take idx rows) in
  let others := singleton_check nc c [] ++ color_check cc c [] in
  let after := rows_issues nc cc cards (S idx) (drop (S idx) rows) in
  let warned_before := rows_warnings nc cc cards 0 (take idx rows) in
  let warned_after := rows_warnings nc cc cards (S idx) (drop (S idx) rows) in
  (legality = Some "banned" →
     (∀ issues warnings, legality_check c (issues, warnings) =
        (issues ++ [banned_msg (Card.name c)], warnings)) ∧
     Py.contains (Card.name c) (banned_msg (Card.name c)) = true ∧
     banned_msg (Card.name c) ∈ DeckValidation.issues v ∧
     DeckValidation.issues v =
       before ++ ([banned_msg (Card.name c)] ++ others) ++ after ∧
     DeckValidation.warnings v = warned_before ++ warned_after) ∧
  (legality ≠ Some "banned" → legality ≠ Some "legal" →
   legality ≠ Some "restricted" →
     (∀ issues warnings, legality_check c (issues, warnings) =
        (issues, warnings ++ [not_legal_msg legality (Card.name c)])) ∧
     Py.contains (Py.str_of_opt legality)
       (not_legal_msg legality (Card.name c)) = true ∧
     not_legal_msg legality (Card.name c) ∈ DeckValidation.warnings v ∧
     DeckValidation.issues v = before ++ others ++ after ∧
     DeckValidation.warnings v =
       warned_before ++ [not_legal_msg legality (Card.name c)] ++ warned_after) ∧
  (legality = Some "legal" ∨ legality = Some "restricted" →
     (∀ issues warnings, legality_check c (issues, warnings) = (issues, warnings)) ∧
     DeckValidation.issues v = before ++ others ++ after ∧
     DeckValidation.warnings v = warned_before ++ warned_after) ∧
  (∀ n, banned_msg n ∈ DeckValidation.issues v ↔
        ∃ idx' r' c', rows !! idx' = Some r' ∧ cards !! idx' = Some c' ∧
                      Card.name c' = n ∧
                      Card.legalities c' !! "commander" = Some "banned") ∧
  (∀ s, s ∈ DeckValidation.warnings v ↔
        ∃ idx' r' c', rows !! idx' = Some r' ∧ cards !! idx' = Some c' ∧
          s = not_legal_msg (Card.legalities c' !! "commander") (Card.name c') ∧
          Card.legalities c' !! "commander" ≠ Some "banned" ∧
          Card.legalities c' !! "commander" ≠ Some "legal" ∧
          Card.legalities c' !! "commander" ≠ Some "restricted").
Proof.
  intros Hr Hc v nc cc legality before others after warned_before warned_after.
  pose proof (validate_deck_issues_at rows cards idx r Hr) as Hi.
  pose proof (validate_deck_warnings_at rows cards idx r Hr) as Hw.
  cbv zeta in Hi, Hw. fold v nc cc in Hi, Hw.
  rewrite (row_issues_resolved nc cc cards idx r c Hc) in Hi.
  rewrite (row_warnings_resolved nc cc cards idx r c Hc) in Hw.
  fold before after others in Hi. fold warned_before warned_after in Hw.
  destruct (legality_check_cases c) as (Hban & Hother & Hlegal).
  fold legality in Hban, Hother, Hlegal.
  split; [|split; [|split; [|split]]].
  - intros H. rewrite (Hban H) in Hi, Hw. cbn [fst snd] in Hi, Hw.
    split; [|split; [|split; [|split]]].
    + intros issues warnings. rewrite legality_check_app, (Hban H).
      cbn [fst snd]. by rewrite app_nil_r.
    + apply contains_app_end.
    + apply elem_of_issues_banned. by exists idx, r, c.
    + exact Hi.
    + exact Hw.
  - intros H1 H2 H3. rewrite (Hother H1 H2 H3) in Hi, Hw. cbn [fst snd] in Hi, Hw.
    split; [|split; [|split; [|split]]].
    + intros issues warnings. rewrite legality_check_app, (Hother H1 H2 H3).
      cbn [fst snd]. by rewrite app_nil_r.
    + apply contains_app.
    + apply elem_of_warnings_status. by exists idx, r, c.
    + exact Hi.
    + exact Hw.
  - intros H. rewrite (Hlegal H) in Hi, Hw. cbn [fst snd] in Hi, Hw.
    split; [|split].
    + intros issues warnings. rewrite legality_check_app, (Hlegal H).
      cbn [fst snd]. by rewrite !app_nil_r.
    + exact Hi.
    + exact Hw.
  - intros n. apply elem_of_issues_banned.
  - intros s. apply elem_of_warnings_status.
Qed.

(** ** Unresolved rows *)

(** C10: a row without a resolved card appends exactly the resolution
    message built from its name, set hint and card number, and nothing
    else: in the validator's result the issues are those of the rows
    before it, that one message, and those of the rows after it, and the
    warnings are those of the other rows only. *)
Theorem unresolved_row_issue rows cards idx r :
  rows !! idx = Some r →
  cards !! idx = None →
  let v := validate_deck rows cards in
  let nc := name_counts rows in
  let cc := DeckValidation.commander_color_id v in
  (∀ st, check_row nc cc cards idx r st = (st.1 ++ [unresolved_msg r], st.2)) ∧
  DeckValidation.issues v =
    (commander_check (detect_commanders rows cards) []).1 ++
    size_check (total_cards rows) [] ++
    rows_issues nc cc cards 0 (take idx rows) ++
    [unresolved_msg r] ++
    rows_issues nc cc cards (S idx) (drop (S idx) rows) ∧
  DeckValidation.warnings v =
    rows_warnings nc cc cards 0 (take idx rows) ++
    rows_warnings nc cc cards (S idx) (drop (S idx) rows) ∧
  Py.contains (CsvRow.name r) (unresolved_msg r) = true ∧
  Py.contains (Py.str_of_opt (CsvRow.set_input r)) (unresolved_msg r) = true ∧
  Py.contains (Py.str_of_opt (CsvRow.card_number r)) (unresolved_msg r) = true.
Proof.
  intros Hr Hc v nc cc.
  split; [|split; [|split; [|split; [|split]]]].
  - intros st. unfold check_row. by rewrite Hc.
  - unfold v at 1. rewrite validate_deck_issues. do 2 f_equal.
    unfold cc, v. rewrite validate_deck_colors. fold nc.
    rewrite (rows_issues_split _ _ _ rows idx r Hr).
    by rewrite row_issues_unresolved.
  - unfold v at 1. rewrite validate_deck_warnings.
    unfold cc, v. rewrite validate_deck_colors. fold nc.
    rewrite (rows_warnings_split _ _ _ rows idx r Hr).
    by rewrite row_warnings_unresolved.
  - apply contains_app.
  - unfold unresolved_msg.
    rewrite (str_app_assoc _ (CsvRow.name r)), (str_app_assoc _ "' (set '").
    apply contains_app.
  - unfold unresolved_msg.
    rewrite (str_app_assoc _ (CsvRow.name r)), (str_app_assoc _ "' (set '"),
      (str_app_assoc _ (Py.str_of_opt (CsvRow.set_input r))),
      (str_app_assoc _ "' number '").
    apply contains_app.
Qed.

(** ** Color identity containment *)

Lemma issubset_spec (ci cc : list string) :
  issubset ci cc = true ↔ ∀ x, x ∈ ci → x ∈ cc.
Proof.
  unfold issubset. rewrite forallb_forall. split.
  - intros H x Hx. apply list_elem_of_In, H in Hx. by apply bool_decide_eq_true in Hx.
  - intros H x Hx. apply bool_decide_eq_true, H. by apply list_elem_of_In.
Qed.

Lemma elem_of_sorted_set (l : list string) x : x ∈ Py.sorted_set l ↔ x ∈ l.
Proof.
  unfold Py.sorted_set, Py.sorted.
  by rewrite merge_sort_Permutation, elem_of_remove_dups.
Qed.

Lemma sorted_set_NoDup (l : list string) : NoDup (Py.sorted_set l).
Proof.
  unfold Py.sorted_set, Py.sorted.
  rewrite merge_sort_Permutation. apply NoDup_remove_dups.
Qed.

Lemma sorted_set_Sorted (l : list string) : Sorted String.le (Py.sorted_set l).
Proof. apply Sorted_merge_sort, _. Qed.

(** Where a color identity message in the issue list comes from. *)
Lemma elem_of_issues_color rows cards s :
  kind s = "Col" →
  s ∈ DeckValidation.issues (validate_deck rows cards) ↔
  ∃ idx r c, rows !! idx = Some r ∧ cards !! idx = Some c ∧
    s = color_msg (Card.name c) (Py.sorted_set (Card.color_identity c))
          (DeckValidation.commander_color_id (validate_deck rows cards)) ∧
    DeckValidation.commander_color_id (validate_deck rows cards) ≠ [] ∧
    issubset (Card.color_identity c)
      (DeckValidation.commander_color_id (validate_deck rows cards)) = false.
Proof.
  intros Hk. rewrite validate_deck_issues, validate_deck_colors, !elem_of_app.
  split.
  - intros [H | [H | H]].
    + apply kind_commander_issue in H. rewrite Hk in H. vm_compute in H. set_solver.
    + apply elem_of_size_check in H as [-> _]. discriminate Hk.
    + apply elem_of_rows_issues in H as (idx & r & Hr & H). simpl in H.
      apply elem_of_row_issues in H as [[_ ->] | (c & Hc & [H | [H | H]])].
      * discriminate Hk.
      * apply elem_of_legality_issues in H as [-> _]. discriminate Hk.
      * apply elem_of_singleton_check in H as [-> _]. discriminate Hk.
      * apply elem_of_color_check in H. by exists idx, r, c.
  - intros (idx & r & c & Hr & Hc & H).
    right. right. apply elem_of_rows_issues. exists idx, r. split; [done|].
    simpl. apply elem_of_row_issues. right. exists c. split; [done|].
    right. right. by apply elem_of_color_check.
Qed.

(** What a color message holds: the name of the card, the text of the
    list of its colors with each color in it, and the text of the commander
    colors with each of them in it. *)
Lemma color_msg_names n ci cc :
  Py.contains n (color_msg n ci cc) = true ∧
  Py.contains (Py.repr_list ci) (color_msg n ci cc) = true ∧
  Py.contains (Py.repr_list cc) (color_msg n ci cc) = true ∧
  (∀ x, x ∈ ci → Py.contains (Py.repr x) (color_msg n ci cc) = true) ∧
  (∀ x, x ∈ cc → Py.contains (Py.repr x) (color_msg n ci cc) = true).
Proof.
  assert (Py.contains (Py.repr_list ci) (color_msg n ci cc) = true) as Hci.
  { unfold color_msg.
    rewrite (str_app_assoc _ n), (str_app_assoc _ " has ").
    apply contains_app. }
  assert (Py.contains (Py.repr_list cc) (color_msg n ci cc) = true) as Hcc.
  { unfold color_msg.
    rewrite (str_app_assoc _ n), (str_app_assoc _ " has "),
      (str_app_assoc _ (Py.repr_list ci)),
      (str_app_assoc _ " not within commander identity ").
    apply contains_app. }
  split; [apply contains_app|]. split; [done|]. split; [done|]. split.
  - intros x Hx. eapply contains_trans; [by apply contains_repr_list | done].
  - intros x Hx. eapply contains_trans; [by apply contains_repr_list | done].
Qed.

(** C4: with a non-empty commander color identity [cc], a resolved card
    whose color identity is not included in [cc] has its color message in
    the issue list, and that message holds the name of the card, each of
    its colors and each of the commander colors; the row of a card whose
    identity is included adds its legality and singleton messages to the
    issue list and nothing else.  With an empty commander color identity
    the issue list holds no color message at all, and every color message
    in the issue list stems from a resolved card whose identity is not
    included in the non-empty [cc]. *)
Theorem color_identity_containment rows cards :
  let v := validate_deck rows cards in
  let nc := name_counts rows in
  let cc := DeckValidation.commander_color_id v in
  (cc ≠ [] →
   ∀ idx r c, rows !! idx = Some r → cards !! idx = Some c →
     let m := color_msg (Card.name c) (Py.sorted_set (Card.color_identity c)) cc in
     (¬ (∀ x, x ∈ Card.color_identity c → x ∈ cc) →
      m ∈ DeckValidation.issues v ∧
      Py.contains (Card.name c) m = true ∧
      Py.contains (Py.repr_list (Py.sorted_set (Card.color_identity c))) m = true ∧
      Py.contains (Py.repr_list cc) m = true ∧
      (∀ x, x ∈ Card.color_identity c → Py.contains (Py.repr x) m = true) ∧
      (∀ x, x ∈ cc → Py.contains (Py.repr x) m = true)) ∧
     ((∀ x, x ∈ Card.color_identity c → x ∈ cc) →
      (∀ issues, color_check cc c issues = issues) ∧
      DeckValidation.issues v =
        ((commander_check (detect_commanders rows cards) []).1 ++
         size_check (total_cards rows) [] ++
         rows_issues nc cc cards 0 (take idx rows)) ++
        ((legality_check c ([], [])).1 ++ singleton_check nc c []) ++
        rows_issues nc cc cards (S idx) (drop (S idx) rows))) ∧
  (cc = [] → ∀ s, s ∈ DeckValidation.issues v → kind s ≠ "Col") ∧
  (∀ s, kind s = "Col" → s ∈ DeckValidation.issues v →
     cc ≠ [] ∧
     ∃ idx r c, rows !! idx = Some r ∧ cards !! idx = Some c ∧
       s = color_msg (Card.name c) (Py.sorted_set (Card.color_identity c)) cc ∧
       ¬ (∀ x, x ∈ Card.color_identity c → x ∈ cc)).
Proof.
  intros v nc cc.
  assert (∀ s, kind s = "Col" → s ∈ DeckValidation.issues v →
     cc ≠ [] ∧
     ∃ idx r c, rows !! idx = Some r ∧ cards !! idx = Some c ∧
       s = color_msg (Card.name c) (Py.sorted_set (Card.color_identity c)) cc ∧
       ¬ (∀ x, x ∈ Card.color_identity c → x ∈ cc)) as Hinv.
  { intros s Hk H. apply elem_of_issues_color in H; [|done].
    destruct H as (idx & r & c & Hr & Hc & -> & Hne & Hsub).
    split; [done|]. exists idx, r, c. repeat split; try done.
    intros Hall. apply issubset_spec in Hall. fold v cc in Hsub. congruence. }
  split; [|split; [|done]].
  - intros Hne idx r c Hr Hc m. split.
    + intros Hnot.
      destruct (color_msg_names (Card.name c)
                  (Py.sorted_set (Card.color_identity c)) cc)
        as (H1 & H2 & H3 & H4 & H5).
      split; [|split; [done|split; [done|split; [done|split; [|done]]]]].
      * apply elem_of_issues_color; [done|].
        exists idx, r, c. repeat split; try done. fold v cc.
        destruct (issubset (Card.color_identity c) cc) eqn:E; [|done].
        exfalso. apply Hnot. by apply issubset_spec.
      * intros x Hx. apply H4. by apply elem_of_sorted_set.
    + intros Hall.
      assert (∀ issues, color_check cc c issues = issues) as Hskip.
      { intros issues. unfold color_check.
        apply issubset_spec in Hall. rewrite Hall. by destruct cc. }
      split; [done|].
      unfold v at 1. rewrite (validate_deck_issues_at rows cards idx r Hr).
      fold v nc cc. do 2 f_equal.
      rewrite (row_issues_resolved nc cc cards idx r c Hc).
      by rewrite (Hskip []), app_nil_r.
  - intros Hnil s Hs Hk. by destruct (Hinv s Hk Hs) as [? _].
Qed.

(** ** Commander cardinality *)

Lemma elem_of_detect_commanders_from rows cards c : ∀ idx,
  c ∈ detect_commanders_from idx rows cards ↔
  ∃ k r, rows !! k = Some r ∧ CsvRow.is_commander r = true ∧
         cards !! (idx + k)%nat = Some c.
Proof.
  induction rows as [|r rows IH]; intros idx; simpl.
  - rewrite elem_of_nil. by split; [|intros (k & r & ? & _)].
  - assert ((c ∈ detect_commanders_from (S idx) rows cards) ↔
            ∃ k r', (r :: rows) !! S k = Some r' ∧
              CsvRow.is_commander r' = true ∧ cards !! (idx + S k)%nat = Some c) as IH'.
    { rewrite IH. apply exist_proper. intros k.
      by replace (S idx + k)%nat with (idx + S k)%nat by lia. }
    assert ((∃ k r', (r :: rows) !! k = Some r' ∧
               CsvRow.is_commander r' = true ∧ cards !! (idx + k)%nat = Some c) ↔
            (CsvRow.is_commander r = true ∧ cards !! idx = Some c) ∨
            (∃ k r', (r :: rows) !! S k = Some r' ∧
               CsvRow.is_commander r' = true ∧ cards !! (idx + S k)%nat = Some c))
      as ->.
    { split.
      - intros ([|k] & r' & Hk & Hcmd & Hc).
        + left. rewrite Nat.add_0_r in Hc. by simplify_eq/=.
        + right. by exists k, r'.
      - intros [[Hcmd Hc] | (k & r' & H)].
        + exists 0%nat, r. by rewrite Nat.add_0_r.
        + by exists (S k), r'. }
    rewrite <- IH'.
    destruct (CsvRow.is_commander r), (cards !! idx) as [c'|];
      rewrite ?elem_of_cons; naive_solver.
Qed.

(** [detect_commanders]: the resolved cards of the rows flagged commander. *)
Lemma elem_of_detect_commanders rows cards c :
  c ∈ detect_commanders rows cards ↔
  ∃ idx r, rows !! idx = Some r ∧ CsvRow.is_commander r = true ∧
           cards !! idx = Some c.
Proof. apply elem_of_detect_commanders_from. Qed.

Lemma _has_partner_spec c : _has_partner c = true ↔ partner_capable c.
Proof.
  unfold _has_partner, partner_capable.
  destruct (existsb _ _) eqn:E.
  - apply existsb_exists in E as (k & Hk%list_elem_of_In & H). naive_solver.
  - rewrite orb_true_iff. split; [naive_solver|].
    intros [(k & Hk & H) | H]; [|done].
    assert (existsb (λ k, Py.startswith "partner" (Py.lower k)) (Card.keywords c) = true)
      as E'; [|congruence].
    apply existsb_exists. exists k. by rewrite <- list_elem_of_In.
Qed.

Lemma _is_eligible_commander_spec c :
  _is_eligible_commander c = false ↔ lacks_eligibility c.
Proof.
  unfold _is_eligible_commander, lacks_eligibility.
  destruct (Py.contains "Legendary Creature" _),
    (Py.contains "can be your commander" _); naive_solver.
Qed.

Lemma filter_all {A} (P : A → Prop) `{∀ x, Decision (P x)} (l : list A) :
  (∀ x, x ∈ l → P x) → filter P l = l.
Proof.
  induction l as [|a l IH]; intros H'; [done|].
  rewrite filter_cons_True by (apply H'; by left).
  f_equal. apply IH. intros x Hx. apply H'. by right.
Qed.

Lemma filter_none {A} (P : A → Prop) `{∀ x, Decision (P x)} (l : list A) :
  (∀ x, x ∈ l → ¬ P x) → filter P l = [].
Proof.
  induction l as [|a l IH]; intros H'; [done|].
  rewrite filter_cons_False by (apply H'; by left).
  apply IH. intros x Hx. apply H'. by right.
Qed.

(** The commander messages of the result are those of the commander block. *)
Lemma commander_issues_block rows cards :
  commander_issues (validate_deck rows cards) =
    (commander_check (detect_commanders rows cards) []).1.
Proof.
  unfold commander_issues. rewrite validate_deck_issues, !filter_app.
  rewrite filter_all by (intros x; apply kind_commander_issue).
  rewrite !filter_none, ?app_nil_r; [done|..].
  - intros x Hx%kind_rows_issue Hk. unfold commander_kind in Hk.
    repeat (apply elem_of_cons in Hx as [Hx | Hx];
            [rewrite Hx in Hk; vm_compute in Hk; set_solver|]).
    by apply elem_of_nil in Hx.
  - intros x [-> _]%elem_of_size_check Hk. vm_compute in Hk. set_solver.
Qed.

Lemma elem_of_commander_issues rows cards s :
  commander_kind s →
  s ∈ DeckValidation.issues (validate_deck rows cards) ↔
  s ∈ (commander_check (detect_commanders rows cards) []).1.
Proof.
  intros Hk. rewrite <- commander_issues_block. unfold commander_issues.
  rewrite list_elem_of_filter. tauto.
Qed.

(** C2: the outcome of the commander block, by the number of detected
    commanders.  None: the no-commander message and an empty color identity.
    One: the eligibility message exactly when the card lacks both
    "Legendary Creature" in its type line and the eligibility phrase in its
    rules text; the color identity has the colors of that card.  Two: the
    partner message exactly when one of them is not partner-capable; the
    color identity has the colors of both.  More: the too-many message and
    an empty color identity.  No other commander message is issued. *)
Theorem commander_cardinality rows cards :
  let v := validate_deck rows cards in
  let cc := DeckValidation.commander_color_id v in
  match detect_commanders rows cards with
  | [] =>
      no_commander_msg ∈ DeckValidation.issues v ∧
      commander_issues v = [no_commander_msg] ∧ cc = []
  | [c0] =>
      (not_eligible_msg (Card.name c0) ∈ DeckValidation.issues v
         ↔ lacks_eligibility c0) ∧
      (lacks_eligibility c0 →
         commander_issues v = [not_eligible_msg (Card.name c0)]) ∧
      (¬ lacks_eligibility c0 → commander_issues v = []) ∧
      (∀ x, x ∈ cc ↔ x ∈ Card.color_identity c0)
  | [c0; c1] =>
      (partner_msg ∈ DeckValidation.issues v
         ↔ ¬ partner_capable c0 ∨ ¬ partner_capable c1) ∧
      (¬ partner_capable c0 ∨ ¬ partner_capable c1 →
         commander_issues v = [partner_msg]) ∧
      (partner_capable c0 ∧ partner_capable c1 → commander_issues v = []) ∧
      (∀ x, x ∈ cc ↔ x ∈ Card.color_identity c0 ∨ x ∈ Card.color_identity c1)
  | _ =>
      too_many_msg ∈ DeckValidation.issues v ∧
      commander_issues v = [too_many_msg] ∧ cc = []
  end.
Proof.
  intros v cc. subst cc v.
  pose proof (elem_of_commander_issues rows cards) as Hmem.
  rewrite commander_issues_block, validate_deck_colors.
  destruct (detect_commanders rows cards) as [|c0 [|c1 [|c2 cs]]]; simpl in *.
  - split; [|split; reflexivity]. apply Hmem; [vm_compute; set_solver | by left].
  - pose proof (_is_eligible_commander_spec c0) as He.
    assert (commander_kind (not_eligible_msg (Card.name c0))) as Hk
      by (vm_compute; set_solver).
    destruct (_is_eligible_commander c0); simpl in *.
    + assert (¬ lacks_eligibility c0) as Hno by (intros H; by apply He in H).
      split; [rewrite (Hmem _ Hk), elem_of_nil; tauto|].
      split; [tauto|]. split; [done|]. intros x. apply elem_of_sorted_set.
    + assert (lacks_eligibility c0) as Hyes by (by apply He).
      split; [rewrite (Hmem _ Hk), list_elem_of_singleton; tauto|].
      split; [done|]. split; [tauto|]. intros x. apply elem_of_sorted_set.
  - pose proof (_has_partner_spec c0) as H0.
    pose proof (_has_partner_spec c1) as H1.
    assert (commander_kind partner_msg) as Hk by (vm_compute; set_solver).
    assert (∀ x, x ∈ Py.sorted_set (Card.color_identity c0 ++ Card.color_identity c1)
                 ↔ x ∈ Card.color_identity c0 ∨ x ∈ Card.color_identity c1) as Hcc.
    { intros x. by rewrite elem_of_sorted_set, elem_of_app. }
    destruct (_has_partner c0), (_has_partner c1); simpl in *;
      rewrite (Hmem _ Hk), ?elem_of_nil, ?list_elem_of_singleton;
      (split; [|split; [|split; [|exact Hcc]]]); try tauto;
      intuition congruence.
  - split; [|split; reflexivity]. apply Hmem; [vm_compute; set_solver | by left].
Qed.

(** ** Set-hint resolution and identifier builder *)

Lemma first_exact_Some s sets code :
  first_exact s sets = Some code ↔
  ∃ k st, first_match (name_equal s) sets k st ∧ code = SetObj.code st.
Proof.
  unfold first_match, name_equal. revert code.
  induction sets as [|st0 sets IH]; intros code; simpl.
  - split; [done | by intros (k & st & (? & _) & _)].
  - destruct (String.eqb_spec (Py.lower (Py.or_empty (SetObj.name st0))) (Py.lower s))
      as [E|E].
    + split.
      * intros [= <-]. exists 0%nat, st0. repeat split; [done|]. intros; lia.
      * intros ([|k] & st & (Hk & HP & Hfirst) & ->); [by simplify_eq/=|].
        exfalso. by apply (Hfirst 0%nat st0); [lia|..].
    + rewrite IH. split.
      * intros (k & st & (Hk & HP & Hfirst) & ->). exists (S k), st.
        repeat split; try done. intros [|j] st' Hj Hst'; simplify_eq/=; [done|].
        apply (Hfirst j st'); [lia | done].
      * intros ([|k] & st & (Hk & HP & Hfirst) & ->); simplify_eq/=.
        exists k, st. repeat split; try done. intros j st' Hj Hst'.
        apply (Hfirst (S j) st'); [lia | done].
Qed.

Lemma first_exact_None s sets :
  first_exact s sets = None ↔ ∀ st, st ∈ sets → ¬ name_equal s st.
Proof.
  unfold name_equal. induction sets as [|st0 sets IH]; simpl.
  - split; [by intros _ st ?%elem_of_nil | done].
  - destruct (String.eqb_spec (Py.lower (Py.or_empty (SetObj.name st0))) (Py.lower s))
      as [E|E].
    + split; [done|]. intros H. exfalso. apply (H st0); [by left | done].
    + rewrite IH. split.
      * intros H st [->|Hst]%elem_of_cons; [done | by apply H].
      * intros H st Hst. apply H. by right.
Qed.

Lemma first_contains_Some s sets code :
  first_contains s sets = Some code ↔
  ∃ k st, first_match (name_contains s) sets k st ∧ code = SetObj.code st.
Proof.
  unfold first_match, name_contains. revert code.
  induction sets as [|st0 sets IH]; intros code; simpl.
  - split; [done | by intros (k & st & (? & _) & _)].
  - destruct (Py.contains (Py.lower s) (Py.lower (Py.or_empty (SetObj.name st0))))
      eqn:E.
    + split.
      * intros [= <-]. exists 0%nat, st0. repeat split; [done|]. intros; lia.
      * intros ([|k] & st & (Hk & HP & Hfirst) & ->); [by simplify_eq/=|].
        exfalso. by apply (Hfirst 0%nat st0); [lia|..].
    + rewrite IH. split.
      * intros (k & st & (Hk & HP & Hfirst) & ->). exists (S k), st.
        repeat split; try done. intros [|j] st' Hj Hst'; simplify_eq/=; [congruence|].
        apply (Hfirst j st'); [lia | done].
      * intros ([|k] & st & (Hk & HP & Hfirst) & ->); simpl in Hk.
        { injection Hk as <-. congruence. }
        exists k, st. repeat split; try done. intros j st' Hj Hst'.
        apply (Hfirst (S j) st'); [lia | done].
Qed.

Lemma first_contains_None s sets :
  first_contains s sets = None ↔ ∀ st, st ∈ sets → ¬ name_contains s st.
Proof.
  unfold name_contains. induction sets as [|st0 sets IH]; simpl.
  - split; [by intros _ st ?%elem_of_nil | done].
  - destruct (Py.contains (Py.lower s) (Py.lower (Py.or_empty (SetObj.name st0))))
      eqn:E.
    + split; [done|]. intros H. exfalso. apply (H st0); [by left | done].
    + rewrite IH. split.
      * intros H st [->|Hst]%elem_of_cons; [congruence | by apply H].
      * intros H st Hst. apply H. by right.
Qed.

Lemma truthy_spec (o : option string) :
  Py.truthy o = true ↔ ∃ s, o = Some s ∧ s ≠ "".
Proof.
  destruct o as [[|a s]|]; simpl; split; try done;
    try (by intros (s' & ? & ?); simplify_eq).
  intros _. by exists (String a s).
Qed.

Lemma truthy_false (o : option string) :
  Py.truthy o = false ↔ o = None ∨ o = Some "".
Proof. destruct o as [[|a s]|]; simpl; naive_solver. Qed.

Lemma contains_cons sub a s :
  Py.contains sub (String a s) = String.prefix sub (String a s) || Py.contains sub s.
Proof. done. Qed.

Lemma prefix_char_ne (b a : ascii) s :
  b ≠ a → String.prefix (String b "") (String a s) = false.
Proof.
  intros H. cbn [String.prefix]. by destruct (ascii_dec b a).
Qed.

Lemma looks_like_code_spec s : looks_like_code s = true ↔ code_like s.
Proof.
  unfold looks_like_code, code_like. split.
  - intros [[[H1%Nat.ltb_lt H2%Nat.leb_le]%andb_true_iff H3]%andb_true_iff _]%andb_true_iff.
    split; [lia | done].
  - intros [[H1 H2] H3].
    rewrite (Py.isalnum_no_space s H3), H3.
    rewrite !andb_true_r. apply andb_true_iff.
    split; [apply Nat.ltb_lt; lia | apply Nat.leb_le; lia].
Qed.

Lemma build_identifiers_loop_map rows sets : ∀ idents,
  build_identifiers_loop rows sets idents =
    idents ++ ((λ r, build_identifier r sets) <$> rows).
Proof.
  induction rows as [|r rows IH]; intros idents; simpl.
  - by rewrite app_nil_r.
  - by rewrite IH, <- app_assoc.
Qed.

Lemma build_identifiers_map rows sets :
  build_identifiers rows sets = (λ r, build_identifier r sets) <$> rows.
Proof. unfold build_identifiers. by rewrite build_identifiers_loop_map. Qed.

(** C8: the identifier builder yields one key per row, in row order,
    chosen by the priority external identifier, then set code with
    collector number, then name with set code, then name alone; and the
    set hint resolves as follows: no hint, no code; a stripped hint of
    length 3 to 5 made of letters and digits is the code, lower-cased;
    otherwise the code of the first directory entry whose name equals the
    hint whatever the case, else of the first entry whose name contains it
    whatever the case, and no code when no entry matches. *)
Theorem identifier_priority rows sets :
  length (build_identifiers rows sets) = length rows ∧
  (∀ i r, rows !! i = Some r →
     let key := build_identifier r sets in
     let set_code := resolve_set_code (CsvRow.set_input r) sets in
     build_identifiers rows sets !! i = Some key ∧
     (∀ id, CsvRow.scryfall_id r = Some id → id ≠ "" → key = ById id) ∧
     (Py.truthy (CsvRow.scryfall_id r) = false →
        (∀ c n, set_code = Some c → c ≠ "" →
                CsvRow.card_number r = Some n → n ≠ "" →
                key = BySetNumber c n) ∧
        (∀ c, set_code = Some c → c ≠ "" →
              Py.truthy (CsvRow.card_number r) = false →
              key = ByNameSet (CsvRow.name r) c) ∧
        (Py.truthy set_code = false → key = ByName (CsvRow.name r)))) ∧
  (∀ hint,
     (Py.truthy hint = false → resolve_set_code hint sets = None) ∧
     (Py.truthy hint = true →
        let s := Py.strip (Py.or_empty hint) in
        (code_like s → resolve_set_code hint sets = Some (Py.lower s)) ∧
        (¬ code_like s →
           (∀ k st, first_match (name_equal s) sets k st →
                    resolve_set_code hint sets = SetObj.code st) ∧
           ((∀ st, st ∈ sets → ¬ name_equal s st) →
              (∀ k st, first_match (name_contains s) sets k st →
                       resolve_set_code hint sets = SetObj.code st) ∧
              ((∀ st, st ∈ sets → ¬ name_contains s st) →
                 resolve_set_code hint sets = None))))).
Proof.
  split; [|split].
  - by rewrite build_identifiers_map, length_fmap.
  - intros i r Hr key set_code. subst key. unfold build_identifier.
    fold set_code. split; [|split].
    + rewrite build_identifiers_map, list_lookup_fmap, Hr. done.
    + intros id -> Hid. by destruct id.
    + intros ->. split; [|split].
      * intros c n -> Hc -> Hn. by destruct c, n.
      * intros c -> Hc ->. by destruct c.
      * by intros ->.
  - intros hint. unfold resolve_set_code. split.
    + by intros ->.
    + intros ->. cbn [negb]. set (s := Py.strip (Py.or_empty hint)). split.
      * intros H%looks_like_code_spec. by rewrite H.
      * intros H. destruct (looks_like_code s) eqn:E.
        { by apply looks_like_code_spec in E. }
        split.
        -- intros k st Hm.
           assert (first_exact s sets = Some (SetObj.code st)) as ->; [|done].
           apply first_exact_Some. by exists k, st.
        -- intros Hno. apply first_exact_None in Hno. rewrite Hno. split.
           ++ intros k st Hm.
              assert (first_contains s sets = Some (SetObj.code st)) as ->; [|done].
              apply first_contains_Some. by exists k, st.
           ++ intros Hno'. apply first_contains_None in Hno'. by rewrite Hno'.
Qed.

(** ** Row-to-card matcher *)

Lemma rule_id_true row card_obj sets :
  rule_id row card_obj → _row_matches_card row card_obj sets = true.
Proof.
  intros (i & Hi & Hne & Hc). unfold _row_matches_card.
  rewrite Hi, Hc, bool_decide_eq_true_2 by done. by destruct i.
Qed.

(** C7: the matcher answers true exactly when one of its three rules
    holds, tried in the order identifier, set code with collector number,
    name.  When the identifier rule holds the answer is true whatever the
    set directory, the names and the sets are; when no rule holds the
    answer is false. *)
Theorem matcher_priority row card_obj sets :
  (_row_matches_card row card_obj sets = true ↔
     rule_id row card_obj ∨ rule_set_number row card_obj sets ∨
     rule_name row card_obj sets) ∧
  (rule_id row card_obj → ∀ sets', _row_matches_card row card_obj sets' = true) ∧
  (¬ rule_id row card_obj → ¬ rule_set_number row card_obj sets →
   ¬ rule_name row card_obj sets → _row_matches_card row card_obj sets = false).
Proof.
  assert (_row_matches_card row card_obj sets = true ↔
     rule_id row card_obj ∨ rule_set_number row card_obj sets ∨
     rule_name row card_obj sets) as Hiff.
  { split.
    - unfold _row_matches_card.
      destruct (Py.truthy (CsvRow.scryfall_id row) && _) eqn:E1.
      { intros _. left. apply andb_true_iff in E1 as [(i & Hi & Hne)%truthy_spec Hd].
        apply bool_decide_eq_true in Hd. exists i. by rewrite Hd. }
      destruct (Py.truthy (resolve_set_code _ _) && Py.truthy _ && _) eqn:E2.
      { intros _. right. left.
        apply andb_true_iff in E2 as [[Hc Hn]%andb_true_iff [Hs Hnum]%andb_true_iff].
        apply truthy_spec in Hc as (code & Hc & Hcne).
        apply truthy_spec in Hn as (num & Hn & Hnne).
        apply bool_decide_eq_true in Hs. apply String.eqb_eq in Hnum.
        exists code, num. do 4 (split; [done|]).
        split; [congruence | rewrite Hnum, Hn; reflexivity]. }
      destruct (String.eqb (Py.lower _) _) eqn:E3; [|done].
      apply String.eqb_eq in E3. intros H. right. right. split; [done|].
      intros code Hcode Hne. rewrite Hcode in H.
      destruct code; [done|]. simpl in H. apply bool_decide_eq_true in H.
      by rewrite H.
    - intros [H | [H | H]].
      + by apply rule_id_true.
      + destruct H as (code & num & Hc & Hcne & Hn & Hnne & Hs & Hnum).
        unfold _row_matches_card. rewrite Hc, Hn, Hs, Hnum.
        destruct (Py.truthy (CsvRow.scryfall_id row) && _); [done|].
        rewrite bool_decide_eq_true_2, String.eqb_refl by done.
        by destruct code, num.
      + destruct H as [Hname Hset]. unfold _row_matches_card.
        destruct (Py.truthy (CsvRow.scryfall_id row) && _); [done|].
        destruct (Py.truthy (resolve_set_code _ _) && Py.truthy _ && _); [done|].
        rewrite Hname, String.eqb_refl.
        destruct (Py.truthy (resolve_set_code _ _)) eqn:E; [|done].
        apply truthy_spec in E as (code & Hc & Hne).
        apply bool_decide_eq_true. rewrite Hc. by apply Hset. }
  split; [done|split].
  - intros H sets'. by apply rule_id_true.
  - intros H1 H2 H3. apply not_true_is_false. rewrite Hiff. tauto.
Qed.

(** ** Greedy assignment of the returned records *)

Section greedy.
Context (rows : list CsvRow.t) (sets : list SetObj.t).



Lemma first_fit_Some_inv result card_obj indices idx :
  first_fit rows sets result card_obj indices = Some idx →
  idx ∈ indices ∧ result !! idx = None.
Proof.
  induction indices as [|idx0 indices IH]; simpl; [done|].
  destruct (result !! idx0) as [c|] eqn:Hres.
  { intros [? ?]%IH. split; [by right | done]. }
  destruct (rows !! idx0) as [row|]; [|done].
  destruct (_row_matches_card row card_obj sets).
  - intros [= <-]. split; [by left | done].
  - intros [? ?]%IH. split; [by right | done].
Qed.




Lemma greedy_match_cons indices d data result :
  greedy_match rows sets indices (d :: data) result =
    greedy_match rows sets indices data (assign rows sets indices result d).
Proof. done. Qed.




End greedy.

Lemma first_fit_Some_match rows sets result card_obj indices idx :
  first_fit rows sets result card_obj indices = Some idx →
  ∃ row, rows !! idx = Some row ∧ _row_matches_card row card_obj sets = true.
Proof.
  induction indices as [|idx0 indices IH]; simpl; [done|].
  destruct (result !! idx0); [done|].
  destruct (rows !! idx0) as [row|] eqn:Hrow; [|done].
  destruct (_row_matches_card row card_obj sets) eqn:Hm; [|done].
  intros [= <-]. eauto.
Qed.

Lemma greedy_match_from rows sets indices data : ∀ result idx c,
  greedy_match rows sets indices data result !! idx = Some c →
  result !! idx = Some c ∨
  ∃ row d, idx ∈ indices ∧ rows !! idx = Some row ∧ c = Card.from_scryfall d ∧
           _row_matches_card row d sets = true ∧ d ∈ data.
Proof.
  induction data as [|d0 data IH]; intros result idx c; [by left|].
  rewrite greedy_match_cons. intros [H | (row & d & ? & ? & ? & ? & ?)]%IH.
  - unfold assign in H.
    destruct (first_fit rows sets result d0 indices) as [idx0|] eqn:E; [|by left].
    destruct (decide (idx0 = idx)) as [->|Hne].
    + rewrite lookup_insert_eq in H. injection H as <-.
      pose proof (first_fit_Some_inv _ _ _ _ _ _ E) as [Hin _].
      apply first_fit_Some_match in E as (row & ? & ?).
      right. exists row, d0. repeat split; try done. by left.
    + rewrite lookup_insert_ne in H by done. by left.
  - right. exists row, d. repeat split; try done. by right.
Qed.




(** ** Quantities of the loaded rows *)

Lemma headers_of_key fieldnames k h :
  headers_of fieldnames !! k = Some h → Py.strip (Py.lower h) = k.
Proof.
  unfold headers_of.
  assert (∀ m : gmap string string,
    (∀ k h, m !! k = Some h → Py.strip (Py.lower h) = k) →
    ∀ k h, fold_left (λ m h, <[Py.strip (Py.lower h) := h]> m) fieldnames m !! k
             = Some h →
           Py.strip (Py.lower h) = k) as Hgen.
  { induction fieldnames as [|f fieldnames IH]; intros m Hm k' h'; simpl.
    - apply Hm.
    - apply IH. intros k2 h2.
      destruct (decide (Py.strip (Py.lower f) = k2)) as [<-|Hne].
      + rewrite lookup_insert_eq. by intros [= <-].
      + rewrite lookup_insert_ne by done. apply Hm. }
  apply Hgen. intros k' h'. by rewrite lookup_empty.
Qed.

(** The header found for a column name is not the empty text. *)
Lemma header_not_empty fieldnames k h :
  k ≠ "" → headers_of fieldnames !! k = Some h → h ≠ "".
Proof.
  intros Hk H%headers_of_key ->.
  rewrite Py.lower_empty, Py.strip_empty in H. congruence.
Qed.

Lemma quantity_header_not_empty fieldnames h :
  headers_of fieldnames !! "quantity" = Some h → h ≠ "".
Proof. by apply header_not_empty. Qed.

Lemma missing_col_Some headers cols col :
  col ∈ cols → headers !! col = None → is_Some (missing_col headers cols).
Proof.
  induction cols as [|c cols IH]; [by intros ?%elem_of_nil|].
  intros [->|Hin]%elem_of_cons Hnone; simpl.
  - by rewrite Hnone.
  - destruct (headers !! c); [by apply IH | done].
Qed.

Lemma missing_col_None headers cols :
  missing_col headers cols = None ↔ ∀ col, col ∈ cols → is_Some (headers !! col).
Proof.
  induction cols as [|c cols IH]; simpl.
  - split; [by intros _ col ?%elem_of_nil | done].
  - destruct (headers !! c) as [h|] eqn:E.
    + rewrite IH. split.
      * intros H col [->|Hin]%elem_of_cons; [by rewrite E | by apply H].
      * intros H col Hin. apply H. by right.
    + split; [done|]. intros H. destruct (H c) as [h Hh]; [by left | congruence].
Qed.

Lemma quantity_text_field raw h :
  quantity_text raw h = Py.strip (quantity_field raw h).
Proof.
  unfold quantity_text, quantity_field, raw_get.
  by destruct (RawRow.fields raw !! h) as [[|a s]|].
Qed.

Lemma row_quantity_inr raw h_qty q :
  (∀ h, h_qty = Some h → h ≠ "") →
  row_quantity raw h_qty = inr q ↔ line_quantity h_qty raw q.
Proof.
  intros Hne. unfold row_quantity, line_quantity.
  destruct h_qty as [[|a h]|]; cbn [Py.truthy Py.or_empty].
  - by destruct (Hne "").
  - rewrite quantity_text_field.
    destruct (Py.int _) as [n|]; split.
    + intros [= <-]. by exists n.
    + by intros (n' & [= <-] & ->).
    + done.
    + by intros (n' & ? & _).
  - split; [by intros [= <-] | by intros ->].
Qed.

Lemma row_quantity_inl raw h_qty v :
  row_quantity raw h_qty = inl v →
  ∃ h, h_qty = Some h ∧ Py.int (Py.strip (quantity_field raw h)) = None.
Proof.
  unfold row_quantity. destruct h_qty as [[|a h]|]; cbn [Py.truthy Py.or_empty];
    [done| |done].
  rewrite quantity_text_field. destruct (Py.int _) eqn:E; [done|]. eauto.
Qed.

Lemma line_quantity_ge_1 h_qty raw q : line_quantity h_qty raw q → 1 ≤ q.
Proof.
  unfold line_quantity. destruct h_qty as [h|]; [|lia].
  intros (n & _ & ->). lia.
Qed.

Lemma or_none_not_empty s : Py.or_none s ≠ Some "".
Proof. by destruct s. Qed.

Lemma optional_field_inr raw h o :
  optional_field raw h = inr o →
  o ≠ Some "" ∧ (RawRow.rest raw = [] ∨ is_Some h).
Proof.
  unfold optional_field. destruct h as [h|].
  - intros [= <-]. split; [apply or_none_not_empty | eauto].
  - destruct (RawRow.rest raw); [|done].
    intros [= <-]. split; [apply or_none_not_empty | by left].
Qed.

Lemma optional_field_inl raw h e :
  optional_field raw h = inl e → RawRow.rest raw ≠ [] ∧ h = None.
Proof.
  unfold optional_field. destruct h as [h|]; [done|].
  by destruct (RawRow.rest raw).
Qed.

Lemma load_row_blank h_name h_set h_qty h_num h_id i raw :
  Py.strip (Py.or_empty (raw_get raw h_name)) = "" →
  load_row h_name h_set h_qty h_num h_id i raw = inr None.
Proof. intros H. unfold load_row. by rewrite H. Qed.

Lemma load_row_Some h_name h_set h_qty h_num h_id i raw r :
  load_row h_name h_set h_qty h_num h_id i raw = inr (Some r) →
  CsvRow.name r = Py.strip (Py.or_empty (raw_get raw h_name)) ∧
  CsvRow.name r ≠ "" ∧
  CsvRow.set_input r = Py.or_none (Py.strip (Py.or_empty (raw_get raw h_set))) ∧
  row_quantity raw h_qty = inr (CsvRow.quantity r) ∧
  optional_field raw h_num = inr (CsvRow.card_number r) ∧
  optional_field raw h_id = inr (CsvRow.scryfall_id r) ∧
  CsvRow.is_commander r = false.
Proof.
  unfold load_row.
  destruct (Py.strip (Py.or_empty (raw_get raw h_name))) eqn:E; [done|].
  destruct (row_quantity raw h_qty); [done|].
  destruct (optional_field raw h_num); [done|].
  destruct (optional_field raw h_id); [done|].
  intros [= <-]. simpl. by repeat split.
Qed.

Lemma load_row_None h_name h_set h_qty h_num h_id i raw :
  load_row h_name h_set h_qty h_num h_id i raw = inr None →
  Py.strip (Py.or_empty (raw_get raw h_name)) = "".
Proof.
  unfold load_row.
  destruct (Py.strip (Py.or_empty (raw_get raw h_name))); [done|].
  destruct (row_quantity raw h_qty); [done|].
  destruct (optional_field raw h_num); [done|].
  by destruct (optional_field raw h_id).
Qed.

(** What the loop body does with a line that has a card name. *)
Lemma load_row_named h_name h_set h_qty h_num h_id i raw :
  (∀ h, h_qty = Some h → h ≠ "") →
  Py.strip (Py.or_empty (raw_get raw h_name)) ≠ "" →
  match load_row h_name h_set h_qty h_num h_id i raw with
  | inr (Some r) =>
      CsvRow.name r = Py.strip (Py.or_empty (raw_get raw h_name)) ∧
      line_quantity h_qty raw (CsvRow.quantity r) ∧
      line_loads h_qty h_num h_id raw
  | inr None => False
  | inl e => ¬ line_loads h_qty h_num h_id raw
  end.
Proof.
  intros Hne Hname.
  destruct (load_row h_name h_set h_qty h_num h_id i raw) as [e|[r|]] eqn:E.
  - unfold load_row in E.
    destruct (Py.strip (Py.or_empty (raw_get raw h_name))); [done|].
    intros [Hq Hrest].
    destruct (row_quantity raw h_qty) as [v|q] eqn:Eq.
    { apply row_quantity_inl in Eq as (h & -> & Hint).
      destruct (Hq h eq_refl) as [n Hn]. congruence. }
    destruct (optional_field raw h_num) as [e1|o1] eqn:E1.
    { apply optional_field_inl in E1 as [? ->].
      destruct Hrest as [? | [[? ?] _]]; done. }
    destruct (optional_field raw h_id) as [e2|o2] eqn:E2; [|done].
    apply optional_field_inl in E2 as [? ->].
    destruct Hrest as [? | [_ [? ?]]]; done.
  - apply load_row_Some in E as (Hn & _ & _ & Hq & H1 & H2 & _).
    split; [done|]. apply row_quantity_inr in Hq as Hq'; [|done].
    split; [done|]. split.
    + intros h ->. destruct Hq' as (n & -> & _). eauto.
    + apply optional_field_inr in H1 as [_ [? | ?]]; [by left|].
      apply optional_field_inr in H2 as [_ [? | ?]]; [by left | by right].
  - apply load_row_None in E. done.
Qed.

Lemma load_rows_spec h_name h_set h_qty h_num h_id raws :
  (∀ h, h_qty = Some h → h ≠ "") →
  ∀ i acc,
  match load_rows h_name h_set h_qty h_num h_id i raws acc with
  | inr rows =>
      ∃ new, rows = acc ++ new ∧
        Forall2 (λ raw r,
                   CsvRow.name r = Py.strip (Py.or_empty (raw_get raw h_name)) ∧
                   line_quantity h_qty raw (CsvRow.quantity r))
          (filter (λ raw, Py.strip (Py.or_empty (raw_get raw h_name)) ≠ "") raws)
          new ∧
        ∀ raw,
          raw ∈ filter (λ raw, Py.strip (Py.or_empty (raw_get raw h_name)) ≠ "") raws →
          line_loads h_qty h_num h_id raw
  | inl e =>
      ∃ raw,
        raw ∈ filter (λ raw, Py.strip (Py.or_empty (raw_get raw h_name)) ≠ "") raws ∧
        ¬ line_loads h_qty h_num h_id raw
  end.
Proof.
  intros Hne. induction raws as [|raw raws IH]; intros i acc; simpl.
  - exists []. rewrite app_nil_r. split; [done|]. split; [constructor|].
    by intros raw ?%elem_of_nil.
  - rewrite filter_cons.
    destruct (decide (Py.strip (Py.or_empty (raw_get raw h_name)) ≠ "")) as [Hn|Hn].
    + pose proof (load_row_named h_name h_set h_qty h_num h_id i raw Hne Hn) as Hrow.
      destruct (load_row h_name h_set h_qty h_num h_id i raw) as [e|[r|]]; [| |done].
      * exists raw. split; [by left | done].
      * destruct Hrow as (Hname & Hq & Hl).
        specialize (IH (S i) (acc ++ [r])).
        destruct (load_rows h_name h_set h_qty h_num h_id (S i) raws (acc ++ [r]))
          as [e|rows].
        -- destruct IH as (raw' & Hin & Hbad). exists raw'. split; [by right | done].
        -- destruct IH as (new & -> & Hall & Hloads). exists (r :: new).
           split; [by rewrite <- app_assoc|]. split; [by constructor|].
           intros raw' [->|Hin]%elem_of_cons; [done | by apply Hloads].
    + apply dec_stable in Hn. rewrite load_row_blank by done. apply IH.
Qed.

Lemma load_rows_quantities h_name h_set h_qty h_num h_id raws i rows r :
  (∀ h, h_qty = Some h → h ≠ "") →
  load_rows h_name h_set h_qty h_num h_id i raws [] = inr rows →
  r ∈ rows → 1 ≤ CsvRow.quantity r.
Proof.
  intros Hne E Hr.
  pose proof (load_rows_spec h_name h_set h_qty h_num h_id raws Hne i []) as H.
  rewrite E in H. destruct H as (new & -> & Hall & _). simpl in Hr.
  apply list_elem_of_lookup in Hr as [k Hk].
  destruct (Forall2_lookup_r _ _ _ _ _ Hall Hk) as (raw & _ & _ & Hq).
  by eapply line_quantity_ge_1.
Qed.

(** The three ways [load_csv] goes on, once the header is read. *)
Lemma load_csv_unfold fieldnames raws :
  load_csv fieldnames raws =
    match fieldnames with
    | [] => inl "CSV appears to have no header row."
    | _ =>
        match missing_col (headers_of fieldnames) REQ_COLS with
        | Some col => inl ("CSV must include a '" +:+ col +:+ "' column")
        | None =>
            match load_rows (default "" (headers_of fieldnames !! "card name"))
                    (default "" (headers_of fieldnames !! "set code / set name"))
                    (headers_of fieldnames !! "quantity")
                    (headers_of fieldnames !! "card number")
                    (headers_of fieldnames !! "scryfall id") 2 raws [] with
            | inl e => inl e
            | inr [] => inl "No rows found in CSV."
            | inr rows => inr rows
            end
        end
    end.
Proof. done. Qed.

Lemma load_csv_inr fieldnames raws rows :
  load_csv fieldnames raws = inr rows →
  rows ≠ [] ∧
  missing_col (headers_of fieldnames) REQ_COLS = None ∧
  load_rows (default "" (headers_of fieldnames !! "card name"))
    (default "" (headers_of fieldnames !! "set code / set name"))
    (headers_of fieldnames !! "quantity")
    (headers_of fieldnames !! "card number")
    (headers_of fieldnames !! "scryfall id") 2 raws [] = inr rows.
Proof.
  rewrite load_csv_unfold. destruct fieldnames as [|f fs]; [done|].
  destruct (missing_col _ _); [done|].
  destruct (load_rows _ _ _ _ _ _ _ _) as [e|[|r0 rows']]; [done..|].
  by intros [= <-].
Qed.

Lemma headers_of_nil k : headers_of (T:=T) [] !! k = None.
Proof. apply lookup_empty. Qed.

Lemma load_csv_cols fieldnames raws :
  (∀ col, col ∈ REQ_COLS → is_Some (headers_of fieldnames !! col)) →
  load_csv fieldnames raws =
    match load_rows (default "" (headers_of fieldnames !! "card name"))
            (default "" (headers_of fieldnames !! "set code / set name"))
            (headers_of fieldnames !! "quantity")
            (headers_of fieldnames !! "card number")
            (headers_of fieldnames !! "scryfall id") 2 raws [] with
    | inl e => inl e
    | inr [] => inl "No rows found in CSV."
    | inr rows => inr rows
    end.
Proof.
  intros Hcols. rewrite load_csv_unfold.
  destruct fieldnames as [|f fs].
  { destruct (Hcols "card name") as [h Hh]; [by left|].
    by rewrite headers_of_nil in Hh. }
  apply (proj2 (missing_col_None _ _)) in Hcols. by rewrite Hcols.
Qed.

(** C6, amended: on a line that has a card name, a quantity text that
    [int] refuses makes the load fail without a row set, and the run then
    ends with status 2 whatever the card source would answer.  When the
    load succeeds, the loaded rows are those of the lines that have a card
    name, in line order, each with the quantity [max(1, n)] for the integer
    [n] read from its quantity field, and 1 when the deck list has no
    quantity column.  The load succeeds exactly when the required columns
    are there, some line has a card name and every such line loads: its
    quantity text is read by [int], and it has no field beyond the header
    unless the card number and identifier columns are both there.  A
    missing or empty quantity field gives 1, and so does a quantity that
    reads as zero or less. *)
Theorem load_csv_quantity fieldnames raws :
  let headers := headers_of fieldnames in
  let h_qty := headers !! "quantity" in
  let named := filter (λ raw, line_name fieldnames raw ≠ "") raws in
  (∀ h raw,
     h_qty = Some h → raw ∈ named →
     Py.int (Py.strip (quantity_field raw h)) = None →
     (∃ e, load_csv fieldnames raws = inl e) ∧
     ∀ commander sets collection by_name,
       main true fieldnames raws commander sets collection by_name = Exit 2) ∧
  (∀ rows, load_csv fieldnames raws = inr rows →
     rows ≠ [] ∧
     Forall2 (λ raw r, CsvRow.name r = line_name fieldnames raw ∧
                       line_quantity h_qty raw (CsvRow.quantity r))
       named rows) ∧
  ((∃ rows, load_csv fieldnames raws = inr rows) ↔
     (∀ col, col ∈ REQ_COLS → is_Some (headers !! col)) ∧ named ≠ [] ∧
     ∀ raw, raw ∈ named →
       line_loads h_qty (headers !! "card number") (headers !! "scryfall id") raw) ∧
  (∀ raw q, line_quantity None raw q ↔ q = 1) ∧
  (∀ h raw q,
     RawRow.fields raw !! h = None ∨ RawRow.fields raw !! h = Some "" →
     line_quantity (Some h) raw q ↔ q = 1) ∧
  (∀ h raw n q,
     Py.int (Py.strip (quantity_field raw h)) = Some n →
     (line_quantity (Some h) raw q ↔ q = Z.max 1 n) ∧
     (n ≤ 0 → line_quantity (Some h) raw q ↔ q = 1)).
Proof.
  intros headers h_qty named.
  pose proof (load_rows_spec (default "" (headers !! "card name"))
                (default "" (headers !! "set code / set name"))
                h_qty (headers !! "card number") (headers !! "scryfall id") raws
                (quantity_header_not_empty fieldnames) 2 []) as Hspec.
  change (filter _ raws) with named in Hspec.
  assert (∀ h raw,
     h_qty = Some h → raw ∈ named →
     Py.int (Py.strip (quantity_field raw h)) = None →
     ∃ e, load_csv fieldnames raws = inl e) as Hfatal.
  { intros h raw Hq Hin Hint. rewrite load_csv_unfold.
    destruct fieldnames as [|f fs]; [eauto|].
    destruct (missing_col _ _); [eauto|]. fold headers h_qty.
    destruct (load_rows _ _ _ _ _ _ _ _) as [e|rows]; [eauto|].
    destruct Hspec as (new & _ & _ & Hloads).
    destruct (Hloads raw Hin) as [Hparse _].
    destruct (Hparse h Hq) as [n Hn]. congruence. }
  split; [|split; [|split; [|split; [|split]]]].
  - intros h raw Hq Hin Hint.
    destruct (Hfatal h raw Hq Hin Hint) as [e He].
    split; [by exists e|]. intros. unfold main. by rewrite He.
  - intros rows (Hne & _ & E)%load_csv_inr. fold headers h_qty in E.
    rewrite E in Hspec. destruct Hspec as (new & -> & Hall & _). done.
  - split.
    + intros [rows (Hne & Hcols & E)%load_csv_inr].
      pose proof (proj1 (missing_col_None _ _) Hcols) as Hcols'.
      fold headers h_qty in E. rewrite E in Hspec.
      destruct Hspec as (new & -> & Hall & Hloads).
      split; [done|]. split; [|done].
      intros Hnil. rewrite Hnil in Hall. apply Forall2_nil_inv_l in Hall.
      by subst new.
    + intros (Hcols & Hnamed & Hloads). rewrite (load_csv_cols _ _ Hcols).
      fold headers h_qty.
      destruct (load_rows _ _ _ _ _ _ _ _) as [e|rows].
      * destruct Hspec as (raw & Hin & Hbad). destruct Hbad. by apply Hloads.
      * destruct Hspec as (new & -> & Hall & _). simpl.
        destruct new as [|r new]; [|eauto].
        apply Forall2_nil_inv_r in Hall. done.
  - done.
  - intros h raw q Hraw. unfold line_quantity, quantity_field.
    assert (match RawRow.fields raw !! h with
            | Some (String a s) => String a s
            | _ => "1"
            end = "1") as -> by (by destruct Hraw as [-> | ->]).
    rewrite Py.strip_one, Py.int_one. split.
    + by intros (n & [= <-] & ->).
    + intros ->. by exists 1.
  - intros h raw n q Hint. unfold line_quantity. rewrite Hint.
    assert ((∃ n0, Some n = Some n0 ∧ q = Z.max 1 n0) ↔ q = Z.max 1 n) as ->.
    { split; [by intros (n' & [= <-] & ->) | intros ->; by exists n]. }
    split; [done|]. intros Hn. by rewrite Z.max_l by lia.
Qed.

(** * Further properties of the program *)

(** ** Lookup keys and the matcher *)

Lemma truthy_or_empty (o : option string) :
  Py.truthy o = true → o = Some (Py.or_empty o) ∧ Py.or_empty o ≠ "".
Proof. by destruct o as [[|a s]|]. Qed.

(** X1: a record that agrees with the lookup key built for a row, on the
    fields that key holds, is accepted by the matcher for that row. *)
Theorem matcher_accepts_key_answer row card_obj sets :
  satisfies_key (build_identifier row sets) card_obj →
  _row_matches_card row card_obj sets = true.
Proof.
  unfold build_identifier, _row_matches_card.
  destruct (Py.truthy (CsvRow.scryfall_id row)) eqn:Eid.
  { apply truthy_or_empty in Eid as [Eid _]. simpl. intros H.
    rewrite H, <- Eid. by rewrite bool_decide_eq_true_2. }
  rewrite andb_false_l.
  destruct (Py.truthy (resolve_set_code (CsvRow.set_input row) sets)) eqn:Ec.
  - apply truthy_or_empty in Ec as [Ec _].
    destruct (Py.truthy (CsvRow.card_number row)) eqn:En; simpl.
    + apply truthy_or_empty in En as [En _]. intros [Hs Hn].
      rewrite Hs, Hn, <- Ec, <- En.
      rewrite bool_decide_eq_true_2 by done. by rewrite String.eqb_refl.
    + intros [Hname Hs]. rewrite Hname, String.eqb_refl, Hs, <- Ec.
      by rewrite bool_decide_eq_true_2.
  - simpl. intros Hname. by rewrite Hname, String.eqb_refl.
Qed.

(** ** A blank set hint *)

Lemma contains_empty s : Py.contains "" s = true.
Proof. by destruct s. Qed.

(** X3: a set hint made of whitespace only is not taken as absent: when
    no directory entry has an empty name it resolves to the code of the
    first directory entry, since the empty text is contained in every name. *)
Theorem blank_hint_takes_first_set hint st sets :
  Py.truthy hint = true →
  Py.strip (Py.or_empty hint) = "" →
  (∀ st', st' ∈ st :: sets → Py.or_empty (SetObj.name st') ≠ "") →
  resolve_set_code hint (st :: sets) = SetObj.code st.
Proof.
  intros Ht Hs Hnames. unfold resolve_set_code. rewrite Ht, Hs. cbn [negb].
  assert (looks_like_code "" = false) as ->.
  { unfold looks_like_code. by rewrite Py.len_empty. }
  assert (first_exact "" (st :: sets) = None) as ->.
  { apply first_exact_None. intros st' Hst' Heq. unfold name_equal in Heq.
    apply (Hnames st' Hst'). rewrite Py.lower_empty in Heq.
    by apply Py.lower_nonempty. }
  cbn [first_contains]. by rewrite Py.lower_empty, contains_empty.
Qed.

(** ** The batches *)





(** ** [fetch_cards] as a whole *)

Lemma fetch_batches_from rows sets collection starts : ∀ result result',
  (∀ i, i ∈ starts → i ∈ batch_starts (length (build_identifiers rows sets))) →
  (∀ idx c, result !! idx = Some c → from_batch rows sets collection idx c) →
  fetch_batches rows sets collection (build_identifiers rows sets) starts result
    = inr result' →
  ∀ idx c, result' !! idx = Some c → from_batch rows sets collection idx c.
Proof.
  induction starts as [|i starts IH]; intros result result' Hsub Hinv; simpl.
  - by intros [= <-].
  - destruct (collection _) as [e| |data] eqn:E; [done..|].
    apply IH; [intros j Hj; apply Hsub; by right|].
    intros idx c [H | (row & d & _ & ? & ? & ? & ?)]%greedy_match_from;
      [by apply Hinv|].
    exists row, d, (take MAX_BATCH (drop i (build_identifiers rows sets))), data.
    repeat split; try done. apply list_elem_of_fmap. exists i.
    split; [done|]. apply Hsub. by left.
Qed.

Lemma fallback_lookup named rows : ∀ start result idx,
  fallback named start rows result !! idx =
    match result !! idx with
    | Some c => Some c
    | None =>
        if decide (start ≤ idx)%nat
        then r ← rows !! (idx - start)%nat;
             Card.from_scryfall <$> named (CsvRow.name r)
        else None
    end.
Proof.
  induction rows as [|r rows IH]; intros start result idx; simpl.
  - destruct (result !! idx); [done|]. by case_decide.
  - rewrite IH. destruct (decide (idx = start)) as [->|Hne].
    + rewrite Nat.sub_diag. simpl.
      rewrite (decide_True (P := (start ≤ start)%nat)) by lia.
      rewrite (decide_False (P := (S start ≤ start)%nat)) by lia.
      destruct (result !! start) as [c|] eqn:E; [by rewrite E|].
      destruct (named (CsvRow.name r)) as [d|]; simpl.
      * by rewrite lookup_insert_eq.
      * by rewrite E.
    + assert ((match result !! start with
               | Some _ => result
               | None => match named (CsvRow.name r) with
                         | Some d => <[start:=Card.from_scryfall d]> result
                         | None => result
                         end
               end) !! idx = result !! idx) as ->.
      { destruct (result !! start); [done|].
        destruct (named (CsvRow.name r)); [|done]. by rewrite lookup_insert_ne. }
      destruct (result !! idx); [done|].
      destruct (decide (start ≤ idx)%nat) as [Hle|Hgt].
      * rewrite (decide_True (P := (S start ≤ idx)%nat)) by lia.
        by replace (idx - start)%nat with (S (idx - S start)) by lia.
      * by rewrite (decide_False (P := (S start ≤ idx)%nat)) by lia.
Qed.

(** X6: the fallback pass leaves every resolved position as it is and
    gives an unresolved row the card of its exact-name lookup, when that
    lookup succeeds; positions beyond the rows are not touched. *)
Theorem fallback_fills_unresolved named rows result idx :
  fallback named 0 rows result !! idx =
    match result !! idx with
    | Some c => Some c
    | None => r ← rows !! idx; Card.from_scryfall <$> named (CsvRow.name r)
    end.
Proof.
  rewrite fallback_lookup. destruct (result !! idx); [done|].
  rewrite decide_True by lia. by rewrite Nat.sub_0_r.
Qed.

(** X7: every card [fetch_cards] returns sits at the position of a row
    and comes either from a record of some batch answer that the matcher
    accepts for that row, or from the exact-name lookup of that row's name. *)
Theorem fetch_cards_sound rows sets collection named result idx c :
  fetch_cards rows sets collection named = inr result →
  result !! idx = Some c →
  from_batch rows sets collection idx c ∨
  ∃ row d, rows !! idx = Some row ∧ named (CsvRow.name row) = Some d ∧
           c = Card.from_scryfall d.
Proof.
  unfold fetch_cards.
  destruct (fetch_batches _ _ _ _ _ _) as [e|batched] eqn:E; [done|].
  intros [= <-]. rewrite fallback_lookup.
  destruct (batched !! idx) as [c'|] eqn:Hb.
  - intros [= <-]. left.
    eapply (fetch_batches_from rows sets collection _ ∅ batched); try done.
  - rewrite decide_True by lia. rewrite Nat.sub_0_r.
    destruct (rows !! idx) as [row|]; [|done]. simpl.
    destruct (named (CsvRow.name row)) as [d|] eqn:Hn; [|done].
    intros [= <-]. right. by exists row, d.
Qed.

(** X8: a row that [fetch_cards] leaves unresolved had a failing
    exact-name lookup, and a row whose exact-name lookup succeeds is
    resolved. *)
Theorem fetch_cards_unresolved rows sets collection named result idx row :
  fetch_cards rows sets collection named = inr result →
  rows !! idx = Some row →
  (result !! idx = None → named (CsvRow.name row) = None) ∧
  (is_Some (named (CsvRow.name row)) → is_Some (result !! idx)).
Proof.
  unfold fetch_cards.
  destruct (fetch_batches _ _ _ _ _ _) as [e|batched] eqn:E; [done|].
  intros [= <-] Hrow. rewrite fallback_lookup.
  destruct (batched !! idx) as [c'|]; [split; [done | eauto]|].
  rewrite decide_True by lia. rewrite Nat.sub_0_r, Hrow. simpl.
  destruct (named (CsvRow.name row)) as [d|]; simpl; split; try done; eauto.
Qed.

(** ** The header and the lines of [load_csv] *)

Lemma headers_of_from fieldnames k : ∀ m : gmap string string,
  fold_left (λ m h, <[Py.strip (Py.lower h) := h]> m) fieldnames m !! k =
    match last (filter (λ h, Py.strip (Py.lower h) = k) fieldnames) with
    | Some h => Some h
    | None => m !! k
    end.
Proof.
  induction fieldnames as [|f fieldnames IH]; intros m; simpl; [done|].
  rewrite IH, filter_cons. case_decide as E.
  - rewrite last_cons. destruct (last (filter _ fieldnames)); [done|].
    by rewrite <- E, lookup_insert_eq.
  - destruct (last (filter _ fieldnames)); [done|].
    by rewrite lookup_insert_ne.
Qed.

(** X9: the column found for a normalised header name is the last field
    of the header row whose lower-cased, stripped text is that name, and
    there is none when no field normalises to it. *)
Theorem headers_last_duplicate_wins fieldnames k :
  headers_of fieldnames !! k =
    last (filter (λ h, Py.strip (Py.lower h) = k) fieldnames).
Proof.
  unfold headers_of. rewrite headers_of_from.
  by destruct (last (filter _ fieldnames)).
Qed.

(** X10: when no field of the header row normalises to one of the
    required column names, the load fails, whatever the lines are. *)
Theorem load_csv_missing_column fieldnames raws col :
  col ∈ REQ_COLS →
  (∀ h, h ∈ fieldnames → Py.strip (Py.lower h) ≠ col) →
  ∃ e, load_csv fieldnames raws = inl e.
Proof.
  intros Hcol Hno. unfold load_csv. destruct fieldnames as [|f fs] eqn:Ef; [eauto|].
  rewrite <- Ef in *. clear Ef. cbv beta iota zeta.
  assert (headers_of fieldnames !! col = None) as Hnone.
  { unfold headers_of. rewrite headers_of_from, lookup_empty.
    assert (filter (λ h, Py.strip (Py.lower h) = col) fieldnames = []) as ->; [|done].
    apply filter_none. intros h Hh. by apply Hno. }
  destruct (missing_col_Some _ _ _ Hcol Hnone) as [c ->]. eauto.
Qed.

Lemma load_rows_names h_name h_set h_qty h_num h_id raws : ∀ i acc rows,
  load_rows h_name h_set h_qty h_num h_id i raws acc = inr rows →
  CsvRow.name <$> rows =
    (CsvRow.name <$> acc) ++
    filter (λ n, n ≠ "")
      ((λ raw, Py.strip (Py.or_empty (raw_get raw h_name))) <$> raws).
Proof.
  induction raws as [|raw raws IH]; intros i acc rows; simpl.
  - intros [= <-]. by rewrite app_nil_r.
  - destruct (load_row h_name h_set h_qty h_num h_id i raw) as [e|[r|]] eqn:E;
      [done|..]; intros H%IH; rewrite H, filter_cons.
    + apply load_row_Some in E as (Hn & Hne & _). rewrite <- Hn.
      rewrite decide_True by done. by rewrite fmap_app, <- app_assoc.
    + apply load_row_None in E. rewrite E. by rewrite decide_False by naive_solver.
Qed.

Lemma load_rows_fields h_name h_set h_qty h_num h_id raws : ∀ i acc rows,
  load_rows h_name h_set h_qty h_num h_id i raws acc = inr rows →
  ∀ r, r ∈ rows →
    r ∈ acc ∨
    (CsvRow.name r ≠ "" ∧ CsvRow.set_input r ≠ Some "" ∧
     CsvRow.card_number r ≠ Some "" ∧ CsvRow.scryfall_id r ≠ Some "" ∧
     CsvRow.is_commander r = false).
Proof.
  induction raws as [|raw raws IH]; intros i acc rows; simpl.
  - intros [= <-]. by left.
  - destruct (load_row h_name h_set h_qty h_num h_id i raw) as [e|[r0|]] eqn:E;
      [done|..]; intros H r Hr; destruct (IH _ _ _ H r Hr) as [Hacc | ?];
      try by right.
    + apply elem_of_app in Hacc as [? | ->%list_elem_of_singleton]; [by left|].
      right. apply load_row_Some in E as (_ & ? & -> & _ & H1 & H2 & ?).
      apply optional_field_inr in H1 as [? _].
      apply optional_field_inr in H2 as [? _].
      repeat split; try done; apply or_none_not_empty.
    + by left.
Qed.

Lemma load_csv_fields fieldnames raws rows r :
  load_csv fieldnames raws = inr rows →
  r ∈ rows →
  CsvRow.name r ≠ "" ∧ CsvRow.set_input r ≠ Some "" ∧
  CsvRow.card_number r ≠ Some "" ∧ CsvRow.scryfall_id r ≠ Some "" ∧
  CsvRow.is_commander r = false.
Proof.
  intros (_ & _ & E)%load_csv_inr Hr.
  destruct (load_rows_fields _ _ _ _ _ _ _ _ _ E r Hr) as [?%elem_of_nil|?]; done.
Qed.

(** X11: every row [load_csv] returns has a non-empty name, is not
    flagged commander, and has optional fields that are absent or
    non-empty, so that their truth value is their presence. *)
Theorem load_csv_rows_well_formed fieldnames raws rows r :
  load_csv fieldnames raws = inr rows →
  r ∈ rows →
  CsvRow.name r ≠ "" ∧
  (Py.truthy (CsvRow.set_input r) = true ↔ is_Some (CsvRow.set_input r)) ∧
  (Py.truthy (CsvRow.card_number r) = true ↔ is_Some (CsvRow.card_number r)) ∧
  (Py.truthy (CsvRow.scryfall_id r) = true ↔ is_Some (CsvRow.scryfall_id r)) ∧
  CsvRow.is_commander r = false.
Proof.
  intros Hload Hr.
  destruct (load_csv_fields fieldnames raws rows r Hload Hr) as (? & ? & ? & ? & ?).
  assert (∀ o : option string, o ≠ Some "" → Py.truthy o = true ↔ is_Some o) as Ht.
  { intros [[|a s]|] Hne; simpl; split; try done; try (by intros [? ?]); eauto. }
  repeat split; try done; by apply Ht.
Qed.

(** X12: the names of the loaded rows are the stripped card names of the
    lines, in line order, with the lines whose name is blank left out. *)
Theorem load_csv_keeps_named_lines fieldnames raws rows :
  load_csv fieldnames raws = inr rows →
  CsvRow.name <$> rows = filter (λ n, n ≠ "") (line_name fieldnames <$> raws).
Proof.
  intros (_ & _ & E)%load_csv_inr.
  by rewrite (load_rows_names _ _ _ _ _ _ _ _ _ E).
Qed.

Lemma load_rows_all_blank h_name h_set h_qty h_num h_id raws : ∀ i acc,
  (∀ raw, raw ∈ raws → Py.strip (Py.or_empty (raw_get raw h_name)) = "") →
  load_rows h_name h_set h_qty h_num h_id i raws acc = inr acc.
Proof.
  induction raws as [|raw raws IH]; intros i acc Hblank; simpl; [done|].
  rewrite load_row_blank by (apply Hblank; by left).
  apply IH. intros raw' Hin. apply Hblank. by right.
Qed.

(** X13: with both required columns present, a deck list in which no
    line has a card name fails with "No rows found in CSV.", whatever its
    other fields hold. *)
Theorem load_csv_no_named_line fieldnames raws :
  (∀ col, col ∈ REQ_COLS → is_Some (headers_of fieldnames !! col)) →
  (∀ raw, raw ∈ raws → line_name fieldnames raw = "") →
  load_csv fieldnames raws = inl "No rows found in CSV.".
Proof.
  intros Hcols Hblank. rewrite (load_csv_cols _ _ Hcols).
  by rewrite load_rows_all_blank.
Qed.

(** ** Commander flags *)

(** X14: marking commanders keeps the number, order and fields of the
    rows and flags a row exactly when it was flagged already or its name
    equals one of the given names whatever the case. *)
Theorem mark_commanders_flags commander rows :
  length (mark_commanders commander rows) = length rows ∧
  ∀ idx r, rows !! idx = Some r →
    ∃ r', mark_commanders commander rows !! idx = Some r' ∧
          CsvRow.name r' = CsvRow.name r ∧
          CsvRow.set_input r' = CsvRow.set_input r ∧
          CsvRow.quantity r' = CsvRow.quantity r ∧
          CsvRow.card_number r' = CsvRow.card_number r ∧
          CsvRow.scryfall_id r' = CsvRow.scryfall_id r ∧
          (CsvRow.is_commander r' = true ↔
             CsvRow.is_commander r = true ∨
             ∃ n, n ∈ commander ∧ Py.lower n = Py.lower (CsvRow.name r)).
Proof.
  unfold mark_commanders. destruct commander as [|n0 ns] eqn:Ec.
  - split; [done|]. intros idx r Hr. exists r. repeat split; try done.
    + by left.
    + intros [? | (n & ?%elem_of_nil & _)]; done.
  - rewrite <- Ec. clear Ec. split; [by rewrite length_fmap|].
    intros idx r Hr. rewrite list_lookup_fmap, Hr. simpl.
    case_bool_decide as Hin.
    + eexists. split; [done|]. simpl. repeat split; try done.
      intros _. right. apply list_elem_of_fmap in Hin as (n & Hn & Hin). eauto.
    + exists r. repeat split; try done; [by left|].
      intros [? | (n & Hn & Heq)]; [done|]. exfalso. apply Hin.
      apply list_elem_of_fmap. by exists n.
Qed.

Lemma detect_commanders_from_length rows cards : ∀ idx,
  (length (detect_commanders_from idx rows cards)
   ≤ length (filter (λ r, CsvRow.is_commander r = true) rows))%nat.
Proof.
  induction rows as [|r rows IH]; intros idx; simpl; [done|].
  specialize (IH (S idx)). rewrite filter_cons.
  destruct (CsvRow.is_commander r); case_decide; try done.
  destruct (cards !! idx); simpl; lia.
Qed.

(** X15: the detected commanders are the resolved cards of the rows
    flagged commander, and there are no more of them than flagged rows. *)
Theorem detected_commanders rows cards :
  (∀ c, c ∈ detect_commanders rows cards ↔
        ∃ idx r, rows !! idx = Some r ∧ CsvRow.is_commander r = true ∧
                 cards !! idx = Some c) ∧
  (length (detect_commanders rows cards)
   ≤ length (filter (λ r, CsvRow.is_commander r = true) rows))%nat.
Proof.
  split; [intros c; apply elem_of_detect_commanders|].
  apply detect_commanders_from_length.
Qed.

Lemma detect_commanders_nil rows cards :
  (∀ idx r, rows !! idx = Some r → CsvRow.is_commander r = true →
            cards !! idx = None) →
  detect_commanders rows cards = [].
Proof.
  intros H. apply elem_of_nil_inv. intros c Hc.
  apply elem_of_detect_commanders in Hc as (idx & r & Hr & Hcmd & Hc).
  by rewrite (H idx r Hr Hcmd) in Hc.
Qed.

(** X16: when no row flagged commander is resolved, the validator reports
    the no-commander issue, no commander name and an empty commander color
    identity. *)
Theorem no_resolved_commander rows cards :
  (∀ idx r, rows !! idx = Some r → CsvRow.is_commander r = true →
            cards !! idx = None) →
  let v := validate_deck rows cards in
  no_commander_msg ∈ DeckValidation.issues v ∧
  DeckValidation.commander_names v = [] ∧
  DeckValidation.commander_color_id v = [].
Proof.
  intros H%detect_commanders_nil v. subst v.
  split; [|split].
  - rewrite validate_deck_issues, H. by left.
  - unfold validate_deck. rewrite H. simpl. by destruct (check_rows _ _ _ _ _ _).
  - by rewrite validate_deck_colors, H.
Qed.

(** X20: when the detected commanders are neither one nor two, or are all
    colorless, the commander color identity is empty and the validator
    raises no color identity issue, whatever the colors of the cards. *)
Theorem color_check_skipped rows cards :
  let commanders := detect_commanders rows cards in
  let v := validate_deck rows cards in
  (length commanders ≠ 1%nat ∧ length commanders ≠ 2%nat) ∨
  (∀ c, c ∈ commanders → Card.color_identity c = []) →
  DeckValidation.commander_color_id v = [] ∧
  ∀ s, s ∈ DeckValidation.issues v → kind s ≠ "Col".
Proof.
  intros commanders v H. subst v.
  assert (DeckValidation.commander_color_id (validate_deck rows cards) = []) as Hcc.
  { rewrite validate_deck_colors. fold commanders.
    destruct commanders as [|c0 [|c1 [|c2 cs]]]; simpl; try done.
    - destruct H as [[? _] | H]; [done|]. by rewrite (H c0) by (by left).
    - destruct H as [[_ ?] | H]; [done|].
      rewrite (H c0) by (by left). by rewrite (H c1) by (right; by left). }
  split; [done|]. intros s Hs Hk. apply elem_of_issues_color in Hs; [|done].
  by destruct Hs as (_ & _ & _ & _ & _ & _ & Hne & _).
Qed.

(** ** Singleton counts go by the row names *)

Lemma name_total_absent n rows :
  (∀ r, r ∈ rows → CsvRow.name r ≠ n) → name_total n rows = 0.
Proof.
  induction rows as [|r rows IH]; intros H; simpl; [done|].
  rewrite bool_decide_eq_false_2 by (apply H; by left).
  rewrite IH; [done|]. intros r' Hr'. apply H. by right.
Qed.

(** X17: the singleton counts go by the names typed in the rows: when no
    row bears exactly the name [n], no singleton issue names [n], whatever
    the quantities. *)
Theorem singleton_needs_exact_row_name rows cards n :
  (∀ r, r ∈ rows → CsvRow.name r ≠ n) →
  ∀ k, singleton_msg n k ∉ DeckValidation.issues (validate_deck rows cards).
Proof.
  intros Habs k Hin.
  apply elem_of_issues_singleton in Hin as (_ & _ & _ & _ & _ & _ & _ & _ & -> & Hk).
  rewrite name_total_absent in Hk by done. lia.
Qed.

(** ** A deck without blocking issues *)

Lemma nil_iff_no_elem {A} (l : list A) : l = [] ↔ ∀ x, x ∉ l.
Proof.
  split; [intros -> x; apply not_elem_of_nil | apply elem_of_nil_inv].
Qed.

Lemma commander_check_nil commanders :
  (commander_check commanders []).1 = [] ↔ commanders_ok commanders.
Proof.
  destruct commanders as [|c0 [|c1 [|c2 cs]]]; simpl; try done.
  - rewrite <- _is_eligible_commander_spec.
    destruct (_is_eligible_commander c0); simpl; naive_solver.
  - rewrite <- !_has_partner_spec.
    destruct (_has_partner c0), (_has_partner c1); simpl; naive_solver.
Qed.

Lemma size_check_nil total : size_check total [] = [] ↔ total = 100.
Proof.
  unfold size_check. destruct (Z.eqb_spec total 100); simpl; split; done.
Qed.

Lemma rows_issues_nil nc cc cards rows : ∀ idx,
  rows_issues nc cc cards idx rows = [] ↔
  ∀ k r, rows !! k = Some r → row_issues nc cc cards (idx + k) r = [].
Proof.
  intros idx. rewrite nil_iff_no_elem. split.
  - intros H k r Hr. apply nil_iff_no_elem. intros s Hs.
    apply (H s), elem_of_rows_issues. eauto.
  - intros H s (k & r & Hr & Hs)%elem_of_rows_issues.
    rewrite (H k r Hr) in Hs. by apply elem_of_nil in Hs.
Qed.

Lemma row_issues_nil rows cc cards idx r :
  row_issues (name_counts rows) cc cards idx r = [] ↔
  ∃ c, cards !! idx = Some c ∧ card_ok rows cc c.
Proof.
  unfold card_ok. destruct (cards !! idx) as [c|] eqn:Hc.
  - rewrite (row_issues_resolved _ _ _ _ _ c Hc).
    assert ((legality_check c ([], [])).1 = [] ↔
            Card.legalities c !! "commander" ≠ Some "banned") as Hl.
    { rewrite nil_iff_no_elem. split.
      - intros H Hb. apply (H (banned_msg (Card.name c))).
        by apply elem_of_legality_issues.
      - intros H s [_ ?]%elem_of_legality_issues. done. }
    assert (singleton_check (name_counts rows) c [] = [] ↔
            Card.is_basic_land c = true ∨ Card.name c ∈ ALLOWED_DUP_EXCEPTIONS ∨
            name_total (Card.name c) rows ≤ 1) as Hs.
    { rewrite nil_iff_no_elem. split.
      - intros H. destruct (Card.is_basic_land c) eqn:Eb; [by left|].
        destruct (decide (Card.name c ∈ ALLOWED_DUP_EXCEPTIONS)) as [?|Hn];
          [right; by left|].
        right. right.
        destruct (Z.le_gt_cases (name_total (Card.name c) rows) 1) as [?|Hgt];
          [done|]. exfalso.
        apply (H (singleton_msg (Card.name c)
                    (default 0 (name_counts rows !! Card.name c)))).
        apply elem_of_singleton_check. rewrite name_counts_total.
        repeat split; try done; lia.
      - intros H s (_ & Hb & Hn & Hk)%elem_of_singleton_check.
        rewrite name_counts_total in Hk.
        destruct H as [? | [? | ?]]; [congruence | done | lia]. }
    assert (color_check cc c [] = [] ↔
            cc = [] ∨ ∀ x, x ∈ Card.color_identity c → x ∈ cc) as Hcol.
    { rewrite nil_iff_no_elem, <- issubset_spec. split.
      - intros H. destruct cc as [|x cc]; [by left|]. right.
        destruct (issubset (Card.color_identity c) (x :: cc)) eqn:E; [done|].
        exfalso. eapply H. apply elem_of_color_check. by repeat split.
      - intros H s (_ & Hne & Hsub)%elem_of_color_check.
        destruct H as [? | ?]; congruence. }
    split.
    + intros (H1 & (H2 & H3)%app_eq_nil)%app_eq_nil. exists c.
      split; [done|]. split; [by apply Hl|]. split; [by apply Hs | by apply Hcol].
    + intros (c' & [= <-] & H1 & H2 & H3).
      apply Hl in H1. apply Hs in H2. apply Hcol in H3. by rewrite H1, H2, H3.
  - rewrite row_issues_unresolved by done. split; [done | by intros (c & ? & _)].
Qed.

(** X18: the validator reports no blocking issue exactly when the
    detected commanders pass, the quantities sum to 100, and every row is
    resolved to a card that is not banned, respects the singleton rule and
    fits the commander colors. *)
Theorem validate_deck_clean_iff rows cards :
  let v := validate_deck rows cards in
  DeckValidation.issues v = [] ↔
    commanders_ok (detect_commanders rows cards) ∧
    quantity_sum rows = 100 ∧
    ∀ idx r, rows !! idx = Some r →
      ∃ c, cards !! idx = Some c ∧
           card_ok rows (DeckValidation.commander_color_id v) c.
Proof.
  intros v. subst v. rewrite validate_deck_issues, validate_deck_colors.
  rewrite <- commander_check_nil, <- total_cards_sum, <- size_check_nil.
  split.
  - intros (? & (? & Hrows)%app_eq_nil)%app_eq_nil. repeat split; try done.
    intros idx r Hr. apply (row_issues_nil rows _ cards idx r).
    by apply (proj1 (rows_issues_nil _ _ _ _ 0%nat) Hrows idx r Hr).
  - intros (-> & -> & Hrows). simpl. apply rows_issues_nil.
    intros k r Hr. simpl. apply (row_issues_nil rows _ cards k r).
    by apply (Hrows k r).
Qed.

Lemma quantity_sum_ge_length rows :
  (∀ r, r ∈ rows → 1 ≤ CsvRow.quantity r) →
  Z.of_nat (length rows) ≤ quantity_sum rows.
Proof.
  induction rows as [|r rows IH]; intros H; [done|].
  cbn [length quantity_sum].
  assert (1 ≤ CsvRow.quantity r) by (apply H; by left).
  assert (Z.of_nat (length rows) ≤ quantity_sum rows).
  { apply IH. intros r' Hr'. apply H. by right. }
  lia.
Qed.

Lemma load_csv_quantities fieldnames raws rows r :
  load_csv fieldnames raws = inr rows → r ∈ rows → 1 ≤ CsvRow.quantity r.
Proof.
  intros (_ & _ & E)%load_csv_inr Hr.
  eapply load_rows_quantities; [|exact E|exact Hr].
  apply quantity_header_not_empty.
Qed.

Lemma mark_commanders_quantity_sum commander rows :
  quantity_sum (mark_commanders commander rows) = quantity_sum rows.
Proof.
  unfold mark_commanders. destruct commander as [|n ns]; [done|].
  induction rows as [|r rows IH]; [done|].
  rewrite fmap_cons. cbn [quantity_sum]. rewrite IH. by case_bool_decide.
Qed.

(** X19: the deck size of a loaded deck list is at least its number of
    rows, with or without commander marks. *)
Theorem loaded_deck_size_at_least_rows fieldnames raws rows commander cards :
  load_csv fieldnames raws = inr rows →
  Z.of_nat (length rows)
    ≤ DeckValidation.deck_size (validate_deck (mark_commanders commander rows) cards).
Proof.
  intros Hload.
  assert (DeckValidation.deck_size
            (validate_deck (mark_commanders commander rows) cards) =
          quantity_sum rows) as ->.
  { unfold validate_deck.
    destruct (commander_check _ _), (check_rows _ _ _ _ _ _). simpl.
    by rewrite total_cards_sum, mark_commanders_quantity_sum. }
  apply quantity_sum_ge_length. intros r Hr. by eapply load_csv_quantities.
Qed.

(** ** The run without a commander *)

(** X21: without a commander name on the command line the run never ends
    with status 0. *)
Theorem main_needs_commander csv_exists fieldnames raws sets collection named :
  let outcome := main csv_exists fieldnames raws [] sets collection named in
  outcome = Exit 1 ∨ outcome = Exit 2 ∨ ∃ e, outcome = Uncaught e.
Proof.
  unfold main. destruct csv_exists; [|by right; left]. simpl.
  destruct (load_csv fieldnames raws) as [e|rows] eqn:Hload; [by right; left|].
  destruct (fetch_cards rows sets collection named) as [e|cards]; [eauto|].
  assert (detect_commanders rows cards = []) as Hnone.
  { apply detect_commanders_nil. intros idx r Hr Hcmd.
    apply list_elem_of_lookup_2 in Hr.
    destruct (load_csv_fields fieldnames raws rows r Hload Hr) as (_&_&_&_&Hf).
    congruence. }
  rewrite validate_deck_issues, Hnone. by left.
Qed.

(** ** The text export *)


End theorems.

(** * The program and the theorems at the sample data *)

#[local] Existing Instance ascii_text.

(** ** The string operations on sample texts *)

Example lower_ex : Py.lower "Partner With" = "partner with".
Proof. reflexivity. Qed.

Example strip_ex : Py.strip "  Dominaria United " = "Dominaria United".
Proof. reflexivity. Qed.

Example int_ex :
  Py.int "12" = Some 12 ∧ Py.int "-3" = Some (-3) ∧ Py.int "1_0" = Some 10 ∧
  Py.int "x" = None ∧ Py.int "" = None ∧ Py.int "1__0" = None.
Proof. repeat split; reflexivity. Qed.

Example repr_list_ex : Py.repr_list ["G"; "R"] = "['G', 'R']".
Proof. reflexivity. Qed.

Example sorted_set_ex : Py.sorted_set ["R"; "G"; "R"] = ["G"; "R"].
Proof. reflexivity. Qed.

Example str_of_int_ex : Py.str_of_int 101 = "101" ∧ Py.str_of_int (-4) = "-4" ∧ Py.str_of_int 0 = "0".
Proof. repeat split; reflexivity. Qed.

(** ** The sample deck, evaluated *)

Example validate_deck_ex :
  validate_deck ex_rows ex_cards =
  {| DeckValidation.issues :=
       ["Deck must contain exactly 100 total cards including commander(s); found 57.";
        "Singleton violation: Sol Ring appears 2 times.";
        "Color identity mismatch: Lightning Bolt has ['R'] not within commander identity ['G'].";
        "BANNED in Commander: Black Lotus";
        "Card could not be resolved on Scryfall: 'Mystery' (set 'None' number 'None')";
        "Color identity mismatch: Relentless Rats has ['B'] not within commander identity ['G'].";
        "Color identity mismatch: Shahrazad has ['W'] not within commander identity ['G']."];
     DeckValidation.warnings := ["Not legal in Commander (status None): Shahrazad"];
     DeckValidation.deck_size := 57;
     DeckValidation.commander_names := ["Omnath"];
     DeckValidation.commander_color_id := ["G"] |}.
Proof. vm_compute. reflexivity. Qed.

Example resolve_set_code_ex :
  resolve_set_code (Some " LeA ") ex_sets = Some "lea" ∧
  resolve_set_code (Some "alpha") ex_sets = Some "alpha" ∧
  resolve_set_code (Some "alpha strike") ex_sets = Some "alp" ∧
  resolve_set_code (Some "Alpha S") ex_sets = Some "asd" ∧
  resolve_set_code (Some "edition") ex_sets = Some "lea" ∧
  resolve_set_code (Some "Unglued") ex_sets = None ∧
  resolve_set_code None ex_sets = None.
Proof. repeat split; vm_compute; reflexivity. Qed.

Example pairings_ex :
  pairings ex_twins [] (unresolved_indices 0 3 3)
    [ex_obj "a" "Sol Ring" "lea" "1"; ex_obj "b" "Sol Ring" "leb" "2";
     ex_obj "c" "Sol Ring" "2ed" "3"] ∅ =
  [(1%nat, ex_obj "a" "Sol Ring" "lea" "1"); (2%nat, ex_obj "b" "Sol Ring" "leb" "2")].
Proof. vm_compute. reflexivity. Qed.

(** C6 as stated fails: a zero quantity and a negative quantity are both
    loaded, as quantity 1. *)
Lemma zero_or_negative_quantity_loads :
  Py.int "0" = Some 0 ∧
  load_csv quantity_fields [quantity_line "Sol Ring" "0"] =
    inr [loaded_row "Sol Ring" 1] ∧
  Py.int "-3" = Some (-3) ∧
  load_csv quantity_fields [quantity_line "Sol Ring" "-3"] =
    inr [loaded_row "Sol Ring" 1].
Proof. repeat split; vm_compute; reflexivity. Qed.

(** ** The theorems at the sample deck *)

Lemma singleton_issue_iff_witness :
  ex_rows !! 1%nat = Some (ex_row "Sol Ring" 2 false) ∧
  ex_cards !! 1%nat = Some (ex_card "Sol Ring" "Artifact" [] (Some "legal")) ∧
  singleton_msg "Sol Ring" 2 ∈ DeckValidation.issues (validate_deck ex_rows ex_cards).
Proof.
  split; [reflexivity|]. split; [reflexivity|].
  destruct (singleton_issue_iff ex_rows ex_cards 1
              (ex_row "Sol Ring" 2 false)
              (ex_card "Sol Ring" "Artifact" [] (Some "legal"))
              eq_refl eq_refl) as [H _].
  destruct H as [[_ H] _].
  - reflexivity.
  - intros Hin. apply list_elem_of_In in Hin. simpl in Hin.
    destruct Hin as [Hin | [Hin | []]]; discriminate Hin.
  - apply H. reflexivity.
Defined.

Lemma commander_cardinality_witness :
  commander_issues (validate_deck ex_rows ex_cards) = [] ∧
  ∀ x, x ∈ DeckValidation.commander_color_id (validate_deck ex_rows ex_cards)
       ↔ x ∈ ["G"].
Proof.
  pose proof (commander_cardinality ex_rows ex_cards) as H.
  cbv zeta in H.
  change (detect_commanders ex_rows ex_cards)
    with [ex_card "Omnath" "Legendary Creature - Elemental" ["G"] (Some "legal")] in H.
  destruct H as (_ & _ & H1 & H2). split; [|exact H2].
  apply H1. intros [Hl _]. vm_compute in Hl. discriminate Hl.
Defined.


Lemma color_identity_containment_witness :
  "Color identity mismatch: Lightning Bolt has ['R'] not within commander identity ['G']."
    ∈ DeckValidation.issues (validate_deck ex_rows ex_cards).
Proof.
  destruct (color_identity_containment ex_rows ex_cards) as [H _].
  cbv zeta in H.
  destruct (H ltac:(vm_compute; discriminate) 2%nat
              (ex_row "Lightning Bolt" 1 false)
              (ex_card "Lightning Bolt" "Instant" ["R"] (Some "legal"))
              eq_refl eq_refl) as [H1 _].
  apply H1. intros Hall. specialize (Hall "R" ltac:(by left)).
  vm_compute in Hall. apply list_elem_of_In in Hall. simpl in Hall.
  destruct Hall as [Hall | []]. discriminate Hall.
Defined.

Lemma deck_size_issue_iff_witness :
  size_msg 57 ∈ DeckValidation.issues (validate_deck ex_rows ex_cards).
Proof.
  destruct (deck_size_issue_iff ex_rows ex_cards) as (_ & H & _).
  apply H. vm_compute. discriminate.
Defined.

Lemma load_csv_quantity_witness :
  ∃ e, load_csv quantity_fields [quantity_line "Sol Ring" "two"] = inl e.
Proof.
  destruct (load_csv_quantity quantity_fields [quantity_line "Sol Ring" "two"])
    as [H _].
  cbv zeta in H.
  destruct (H "Quantity" (quantity_line "Sol Ring" "two")) as [H1 _].
  - reflexivity.
  - vm_compute. left.
  - reflexivity.
  - exact H1.
Defined.

Lemma matcher_priority_witness :
  _row_matches_card ex_id_row (ex_obj "id-1" "Sol Ring" "lea" "232") ex_sets = true.
Proof.
  apply (proj1 (proj2 (matcher_priority ex_id_row
           (ex_obj "id-1" "Sol Ring" "lea" "232") ex_sets))).
  exists "id-1". repeat split. discriminate.
Defined.

Lemma identifier_priority_witness :
  build_identifiers [ex_id_row; ex_row "Forest" 1 false] ex_sets !! 0%nat =
    Some (ById "id-1") ∧
  build_identifier (ex_row "Forest" 1 false) ex_sets = ByName "Forest".
Proof.
  destruct (identifier_priority [ex_id_row; ex_row "Forest" 1 false] ex_sets)
    as (_ & H & _).
  split.
  - destruct (H 0%nat ex_id_row eq_refl) as (H0 & H1 & _).
    rewrite H0. apply (f_equal Some).
    exact (H1 "id-1" eq_refl ltac:(discriminate)).
  - destruct (H 1%nat (ex_row "Forest" 1 false) eq_refl) as (_ & _ & H2).
    apply H2; reflexivity.
Defined.

Lemma legality_classification_witness :
  banned_msg "Black Lotus" ∈ DeckValidation.issues (validate_deck ex_rows ex_cards) ∧
  not_legal_msg None "Shahrazad"
    ∈ DeckValidation.warnings (validate_deck ex_rows ex_cards).
Proof.
  split.
  - destruct (legality_classification ex_rows ex_cards 3
                (ex_row "Black Lotus" 1 false)
                (ex_card "Black Lotus" "Artifact" [] (Some "banned"))
                eq_refl eq_refl) as [H _].
    destruct (H eq_refl) as (_ & _ & H1 & _). exact H1.
  - destruct (legality_classification ex_rows ex_cards 7
                (ex_row "Shahrazad" 1 false)
                (ex_card "Shahrazad" "Sorcery" ["W"] None)
                eq_refl eq_refl) as (_ & H & _).
    destruct H as (_ & _ & H1 & _); [discriminate..|]. exact H1.
Defined.

Lemma unresolved_row_issue_witness :
  ex_rows !! 5%nat = Some (ex_row "Mystery" 1 false) ∧
  ex_cards !! 5%nat = None ∧
  check_row (name_counts ex_rows)
    (DeckValidation.commander_color_id (validate_deck ex_rows ex_cards))
    ex_cards 5 (ex_row "Mystery" 1 false) ([], []) =
  ([unresolved_msg (ex_row "Mystery" 1 false)], []).
Proof.
  split; [reflexivity|]. split; [reflexivity|].
  exact (proj1 (unresolved_row_issue ex_rows ex_cards 5
                  (ex_row "Mystery" 1 false) eq_refl eq_refl) ([], [])).
Defined.

(** ** The added theorems at the sample data *)

Example fetch_cards_ex :
  fetch_cards ex_twins [] ex_collection ex_named = inr ex_fetched.
Proof. vm_compute. reflexivity. Qed.

Lemma matcher_accepts_key_answer_witness :
  _row_matches_card (ex_row "sol ring" 1 false)
    (ex_obj "a" "Sol Ring" "lea" "1") ex_sets = true.
Proof.
  apply matcher_accepts_key_answer. reflexivity.
Defined.

Lemma blank_hint_takes_first_set_witness :
  resolve_set_code (Some "  ") ex_sets = Some "asd".
Proof.
  apply (blank_hint_takes_first_set (Some "  ")
           {| SetObj.name := Some "Alpha Strike Deluxe"; SetObj.code := Some "asd" |}).
  - reflexivity.
  - reflexivity.
  - intros st' Hin. apply list_elem_of_In in Hin. simpl in Hin.
    destruct Hin as [<- | [<- | [<- | []]]]; discriminate.
Defined.

Lemma fetch_cards_sound_witness :
  from_batch ex_twins [] ex_collection 1
    (Card.from_scryfall (ex_obj "a" "Sol Ring" "lea" "1")) ∨
  ∃ row d, ex_twins !! 1%nat = Some row ∧ ex_named (CsvRow.name row) = Some d ∧
           Card.from_scryfall (ex_obj "a" "Sol Ring" "lea" "1") = Card.from_scryfall d.
Proof.
  apply (fetch_cards_sound ex_twins [] ex_collection ex_named ex_fetched).
  - vm_compute. reflexivity.
  - reflexivity.
Defined.

Lemma fetch_cards_unresolved_witness :
  ex_fetched !! 2%nat = None ∧ ex_named "Sol Ring" = None.
Proof.
  split; [reflexivity|].
  apply (fetch_cards_unresolved ex_twins [] ex_collection ex_named ex_fetched 2
           (ex_row "Sol Ring" 1 false)).
  - vm_compute. reflexivity.
  - reflexivity.
  - reflexivity.
Defined.

Lemma load_csv_missing_column_witness :
  ∃ e, load_csv ["Card name"; "Quantity"] [quantity_line "Sol Ring" "1"] = inl e.
Proof.
  apply (load_csv_missing_column _ _ "set code / set name").
  - right. by left.
  - intros h Hin. apply list_elem_of_In in Hin. simpl in Hin.
    destruct Hin as [<- | [<- | []]]; vm_compute; discriminate.
Defined.

Lemma load_csv_rows_well_formed_witness :
  CsvRow.name (loaded_row "Sol Ring" 1) ≠ "" ∧
  (Py.truthy (CsvRow.set_input (loaded_row "Sol Ring" 1)) = true ↔
   is_Some (CsvRow.set_input (loaded_row "Sol Ring" 1))) ∧
  (Py.truthy (CsvRow.card_number (loaded_row "Sol Ring" 1)) = true ↔
   is_Some (CsvRow.card_number (loaded_row "Sol Ring" 1))) ∧
  (Py.truthy (CsvRow.scryfall_id (loaded_row "Sol Ring" 1)) = true ↔
   is_Some (CsvRow.scryfall_id (loaded_row "Sol Ring" 1))) ∧
  CsvRow.is_commander (loaded_row "Sol Ring" 1) = false.
Proof.
  apply (load_csv_rows_well_formed quantity_fields [quantity_line "Sol Ring" "1"]
           [loaded_row "Sol Ring" 1]).
  - vm_compute. reflexivity.
  - by left.
Defined.

Lemma load_csv_keeps_named_lines_witness :
  CsvRow.name <$> [loaded_row "Sol Ring" 1; loaded_row "Forest" 1] =
  filter (λ n, n ≠ "")
    (line_name quantity_fields <$>
       [quantity_line " Sol Ring " "1"; quantity_line "  " "x";
        quantity_line "Forest" ""]).
Proof.
  apply load_csv_keeps_named_lines. vm_compute. reflexivity.
Defined.

Lemma load_csv_no_named_line_witness :
  load_csv ex_fields [ex_line "  " "LEA"; ex_line "" ""] =
    inl "No rows found in CSV.".
Proof.
  apply load_csv_no_named_line.
  - intros col Hin. apply list_elem_of_In in Hin. simpl in Hin.
    destruct Hin as [<- | [<- | []]]; vm_compute; eauto.
  - intros raw Hin. apply list_elem_of_In in Hin. simpl in Hin.
    destruct Hin as [<- | [<- | []]]; reflexivity.
Defined.

Lemma color_check_skipped_witness :
  DeckValidation.commander_color_id
    (validate_deck [ex_row "Karn" 1 true; ex_row "Lightning Bolt" 1 false]
       (list_to_map
          [(0%nat, ex_card "Karn" "Legendary Creature - Golem" [] (Some "legal"));
           (1%nat, ex_card "Lightning Bolt" "Instant" ["R"] (Some "legal"))])) = [].
Proof.
  apply (color_check_skipped [ex_row "Karn" 1 true; ex_row "Lightning Bolt" 1 false]).
  right. intros c Hin. apply list_elem_of_In in Hin. simpl in Hin.
  destruct Hin as [<- | []]. reflexivity.
Defined.

Lemma loaded_deck_size_at_least_rows_witness :
  Z.of_nat (length [loaded_row "Sol Ring" 1])
    ≤ DeckValidation.deck_size
        (validate_deck (mark_commanders [] [loaded_row "Sol Ring" 1]) ∅).
Proof.
  apply (loaded_deck_size_at_least_rows quantity_fields
           [quantity_line "Sol Ring" "0"]).
  vm_compute. reflexivity.
Defined.

Lemma no_resolved_commander_witness :
  no_commander_msg
    ∈ DeckValidation.issues (validate_deck [ex_row "Omnath" 1 true] ∅).
Proof.
  apply (no_resolved_commander [ex_row "Omnath" 1 true] ∅).
  intros idx r _ _. apply lookup_empty.
Defined.

Lemma singleton_needs_exact_row_name_witness :
  singleton_msg "Sol Ring" 2
    ∉ DeckValidation.issues
        (validate_deck [ex_row "sol ring" 2 false]
           {[0%nat := ex_card "Sol Ring" "Artifact" [] (Some "legal")]}).
Proof.
  apply singleton_needs_exact_row_name.
  intros r Hin. apply list_elem_of_In in Hin. simpl in Hin.
  destruct Hin as [<- | []]. discriminate.
Defined.

Lemma validate_deck_clean_iff_witness :
  DeckValidation.issues (validate_deck ex_clean_rows ex_clean_cards) = [].
Proof.
  apply (validate_deck_clean_iff ex_clean_rows ex_clean_cards).
  split; [|split].
  - change (detect_commanders ex_clean_rows ex_clean_cards)
      with [ex_card "Omnath" "Legendary Creature - Elemental" ["G"] (Some "legal")].
    intros [Hl _]. vm_compute in Hl. discriminate Hl.
  - reflexivity.
  - intros idx r Hr.
    destruct idx as [|[|idx]]; simpl in Hr; [| |done]; injection Hr as <-;
      eexists; (split; [reflexivity|]); (split; [vm_compute; discriminate|]);
      (split; [|right; intros x Hx; exact Hx]).
    + right. right. vm_compute. discriminate.
    + left. reflexivity.
Defined.

Lemma headers_last_duplicate_wins_witness :
  headers_of ["Quantity"; "Card name"; " quantity "] !! "quantity" =
    Some " quantity ".
Proof.
  rewrite (headers_last_duplicate_wins ["Quantity"; "Card name"; " quantity "]
             "quantity").
  reflexivity.
Defined.

Lemma mark_commanders_flags_witness :
  ∃ r', mark_commanders ["SOL RING"] ex_twins !! 1%nat = Some r' ∧
        CsvRow.name r' = "sol ring" ∧ CsvRow.is_commander r' = true.
Proof.
  destruct (mark_commanders_flags ["SOL RING"] ex_twins) as [_ H].
  destruct (H 1%nat (ex_row "sol ring" 1 false) eq_refl)
    as (r' & Hr' & Hname & _ & _ & _ & _ & Hflag).
  exists r'. split; [exact Hr'|]. split; [exact Hname|].
  apply Hflag. right. exists "SOL RING". split; [by left | reflexivity].
Defined.

Lemma main_needs_commander_witness :
  let outcome :=
    main true quantity_fields [quantity_line "Sol Ring" "1"] [] ex_sets
      ex_collection ex_named in
  outcome = Exit 1 ∨ outcome = Exit 2 ∨ ∃ e, outcome = Uncaught e.
Proof.
  exact (main_needs_commander true quantity_fields
           [quantity_line "Sol Ring" "1"] ex_sets ex_collection ex_named).
Defined.

